(** * The import controller of the Passbolt browser extension

    A shallow embedding of
    [src/all/background_page/controller/import/importController.js]
    (class [ImportController]) and the properties of its path
    normaliser, batch scheduler, folder and resource materialisers and
    orchestrator.

    JavaScript strings are sequences of code units; they are embedded
    as [string], one [ascii] per code unit.  Array lengths, indices and
    counters are natural numbers.  Promises are embedded by their
    settlement ([Resolved] / [Rejected]); the order in which the pending
    promises of one batch settle is a parameter of the development. *)

From Stdlib Require Import Ascii String.
From stdpp Require Import base list strings gmap sorting pretty.

Local Open Scope stdpp_scope.

(** ** JavaScript string primitives used by the controller *)

Module Js.

(** [strip_prefix p s] is [Some r] when [s = p ++ r]. *)
Fixpoint strip_prefix (p s : string) : option string :=
  match p, s with
  | EmptyString, _ => Some s
  | String a p', String b s' =>
      if decide (a = b) then strip_prefix p' s' else None
  | String _ _, EmptyString => None
  end.

(** First occurrence of [pat] in [s], as the text before it and the
    text after it. *)
Fixpoint find (pat s : string) : option (string * string) :=
  match strip_prefix pat s with
  | Some post => Some (EmptyString, post)
  | None =>
      match s with
      | EmptyString => None
      | String c s' =>
          match find pat s' with
          | Some (pre, post) => Some (String c pre, post)
          | None => None
          end
      end
  end.

(** [String.prototype.includes]. *)
Definition includes (pat s : string) : bool :=
  match find pat s with Some _ => true | None => false end.

(** The abstract operation GetSubstitution for a string pattern: no
    captures, so only [$$], [$&], [$`] and [$'] are expanded. *)
Fixpoint getSubstitution (matched pre post repl : string) : string :=
  match repl with
  | EmptyString => EmptyString
  | String "$" (String "$" r) =>
      String "$" (getSubstitution matched pre post r)
  | String "$" (String "&" r) =>
      matched +:+ getSubstitution matched pre post r
  | String "$" (String "`" r) =>
      pre +:+ getSubstitution matched pre post r
  | String "$" (String "'" r) =>
      post +:+ getSubstitution matched pre post r
  | String c r => String c (getSubstitution matched pre post r)
  end.

(** [String.prototype.replace] with a string pattern: only the first
    occurrence is replaced. *)
Definition replace (pat repl s : string) : string :=
  match find pat s with
  | Some (pre, post) => pre +:+ getSubstitution pat pre post repl +:+ post
  | None => s
  end.

(** [s.replace(/^\//, '')]. *)
Definition strip_leading_slash (s : string) : string :=
  match s with
  | String "/" s' => s'
  | _ => s
  end.

(** [String.prototype.split] with a one-character separator. *)
Fixpoint split (sep : ascii) (s : string) : list string :=
  match s with
  | EmptyString => [EmptyString]
  | String c s' =>
      if decide (c = sep) then EmptyString :: split sep s'
      else match split sep s' with
           | h :: t => String c h :: t
           | [] => [String c EmptyString]
           end
  end.

(** [Array.prototype.join]. *)
Fixpoint join (sep : string) (l : list string) : string :=
  match l with
  | [] => EmptyString
  | [x] => x
  | x :: l' => x +:+ sep +:+ join sep l'
  end.

(** [s.slice(-n)] for [n > 0]: the last [n] code units, or all of
    [s] when it is shorter. *)
Definition slice_neg (n : nat) (s : string) : string :=
  String.substring (String.length s - n) n s.

(** [c] occurs in [s]. *)
Fixpoint has_char (c : ascii) (s : string) : bool :=
  match s with
  | EmptyString => false
  | String d s' => if decide (d = c) then true else has_char c s'
  end.

End Js.

(** ** Path normaliser and import tag *)

(** The value of [new Date()] as read by the getters the controller
    calls: [getFullYear], [getMonth] (0 to 11), [getDate], [getHours],
    [getMinutes], [getSeconds]. *)
Record JsDate := {
  getFullYear : nat;
  getMonth : nat;
  getDate : nat;
  getHours : nat;
  getMinutes : nat;
  getSeconds : nat
}.

(** [Number.prototype.toString] on a non-negative integer. *)
Definition toString (n : nat) : string := pretty n.

(** [ImportController._generateUniqueImportTag], with the clock value
    made explicit. *)
Definition importDate (today : JsDate) : string :=
  toString (getFullYear today) +:+
  Js.slice_neg 2 ("0" +:+ toString (getMonth today + 1)) +:+
  Js.slice_neg 2 ("0" +:+ toString (getDate today)) +:+
  toString (getHours today) +:+
  toString (getMinutes today) +:+
  toString (getSeconds today).

Definition _generateUniqueImportTag (fileType : string) (today : JsDate) : string :=
  "import-" +:+ fileType +:+ "-" +:+ importDate today.

(** [_getConsolidatedPath].  The argument is [None] for [undefined]
    (a resource without [folderParentPath]); [!path] holds for
    [undefined] and for the empty string. *)
Definition _getConsolidatedPath (uniqueImportTag : string) (path : option string) : string :=
  match path with
  | None => "/" +:+ uniqueImportTag
  | Some p =>
      if decide (p = "" ∨ p = "/") then "/" +:+ uniqueImportTag
      else if Js.includes "/Root/" p then
        Js.replace "/Root/" ("/" +:+ uniqueImportTag +:+ "/") p
      else "/" +:+ uniqueImportTag +:+ "/" +:+ p
  end.

(** ** Folder paths *)

(** The pieces [saveFolder] derives from a folder path:
    [folderPath.replace(/^\//, '').split('/')], the popped last
    segment, and the parent path rebuilt from the remaining ones. *)
Definition folderSplit (folderPath : string) : list string :=
  Js.split "/" (Js.strip_leading_slash folderPath).

Definition folderName (folderPath : string) : string :=
  List.last (folderSplit folderPath) "".

Definition folderParent (folderPath : string) : string :=
  match removelast (folderSplit folderPath) with
  | [] => ""
  | rest => "/" +:+ Js.join "/" rest
  end.

(** [Array.prototype.sort] without a comparator orders strings by
    their code units.  The order is total and antisymmetric, so the
    sorted array does not depend on the algorithm; merge sort is used
    here.  [String.le] is that order. *)
Definition js_sort (l : list string) : list string := merge_sort String.le l.

(** The array part of [_prepareFolders]: consolidate every path, put
    the root in front unless it is already included, sort. *)
Definition prepareFoldersPaths (uniqueImportTag : string) (foldersPaths : list string) : list string :=
  let consolidated := (λ path, _getConsolidatedPath uniqueImportTag (Some path)) <$> foldersPaths in
  let rootPath := _getConsolidatedPath uniqueImportTag (Some "/") in
  js_sort (if bool_decide (rootPath ∈ consolidated) then consolidated
           else rootPath :: consolidated).

(** ** Batches *)

(** The loop of [prepareBatches].  [chunks = items.length / batchSize]
    is a fraction; for an integer [i] the test [i < chunks] is
    [i * batchSize < items.length] (for [batchSize = 0] the quotient is
    [Infinity], or [NaN] for an empty list, with the same outcome of
    the test).  The loop need not end, so it runs on fuel; [None] is
    the loop that is still running when the fuel is spent. *)
Fixpoint prepareBatches_loop {A} (fuel : nat) (batchSize : nat) (items : list A)
    (i j : nat) (batches : list (list A)) : option (list (list A)) :=
  if decide (i * batchSize < length items) then
    match fuel with
    | 0 => None
    | S fuel' =>
        prepareBatches_loop fuel' batchSize items (i + 1) (j + batchSize)
          (batches ++ [take batchSize (drop j items)])
    end
  else Some batches.

(** One iteration per item is enough whenever the loop ends. *)
Definition prepareBatches_list {A} (batchSize : nat) (items : list A) : option (list (list A)) :=
  prepareBatches_loop (length items) batchSize items 0 0 [].

(** ** Data of the import *)

(** A thrown or rejected value.  The scheduler reads [e.header.message]:
    [ApiError] is a value with a [header] carrying a [message], as the
    API answers are; [PlainError] is any other value ([Error],
    [TypeError], ...), on which [e.header] is [undefined]. *)
Inductive JsError :=
| ApiError (header_message : string)
| PlainError (text : string).

(** A settled promise. *)
Inductive Settled (A : Type) :=
| Resolved (a : A)
| Rejected (e : JsError).
Arguments Resolved {A} a.
Arguments Rejected {A} e.

(** How a call ends: it returns, it throws, or it never returns. *)
Inductive Completion (A : Type) :=
| Returned (a : A)
| Thrown (e : JsError)
| Hangs.
Arguments Returned {A} a.
Arguments Thrown {A} e.
Arguments Hangs {A}.

Record Secret := { data : string }.

(** An item to import.  [None] is an absent ([undefined] or deleted)
    property. *)
Record Resource := {
  name : string;
  secretClear : option string;
  folderParentPath : option string;
  userId : option string;
  message : option string;
  secrets : option (list Secret);
  folder_parent_id : option string
}.

(** The entity handed to the folder creation call, and the created
    folder, of which the controller reads [id]. *)
Record FolderEntity := { folder_name : string; folderParentId : option string }.
Record Folder := { id : string }.

(** What [Resource.import] resolves with. *)
Record ResourceEntity := { resource_id : string }.

Record ErrorEntry (I : Type) := { error : string; resource : I }.
Arguments error {I} _.
Arguments resource {I} _.

Record ImportResults (V I : Type) := { created : list V; errors : list (ErrorEntry I) }.
Arguments created {V I} _.
Arguments errors {V I} _.

Record ExecResult := {
  result_resources : ImportResults ResourceEntity Resource;
  result_folders : option (ImportResults (option Folder) string);
  result_importTag : string
}.

(** Calls to the collaborators, in the order they are made. *)
Inductive Event :=
| EvProgressOpen (title : string) (goals : nat) (label : string)
| EvProgressUpdate (completed : nat) (label : option string)
| EvProgressClose
| EvKeyringSync
| EvEncryptAll (rs : list Resource)
| EvFolderCreate (e : FolderEntity)
| EvResourceImport (r : Resource).

(** The callbacks [crypto.encryptAll] makes while it runs. *)
Inductive EncryptCallback :=
| OnStart (position : nat)
| OnComplete.

(** ** The controller object *)

Record ImportController := {
  importFolders : bool;
  credentials_keyFile : option string;
  fileType : string;
  uniqueImportTag : string;
  batchSize : nat;
  batchCount : nat;
  itemsCount : nat;
  operationsCount : nat;
  currentOperationNumber : nat;
  currentBatchNumber : nat;
  currentItemNumber : nat;
  folders : gmap string Folder;
  items_resources : list Resource;
  items_foldersPaths : list string
}.

Definition set_batchCount (v : nat) (t : ImportController) : ImportController :=
  {| importFolders := importFolders t;
     credentials_keyFile := credentials_keyFile t;
     fileType := fileType t;
     uniqueImportTag := uniqueImportTag t;
     batchSize := batchSize t;
     batchCount := v;
     itemsCount := itemsCount t;
     operationsCount := operationsCount t;
     currentOperationNumber := currentOperationNumber t;
     currentBatchNumber := currentBatchNumber t;
     currentItemNumber := currentItemNumber t;
     folders := folders t;
     items_resources := items_resources t;
     items_foldersPaths := items_foldersPaths t |}.

Definition set_itemsCount (v : nat) (t : ImportController) : ImportController :=
  {| importFolders := importFolders t;
     credentials_keyFile := credentials_keyFile t;
     fileType := fileType t;
     uniqueImportTag := uniqueImportTag t;
     batchSize := batchSize t;
     batchCount := batchCount t;
     itemsCount := v;
     operationsCount := operationsCount t;
     currentOperationNumber := currentOperationNumber t;
     currentBatchNumber := currentBatchNumber t;
     currentItemNumber := currentItemNumber t;
     folders := folders t;
     items_resources := items_resources t;
     items_foldersPaths := items_foldersPaths t |}.

Definition set_operationsCount (v : nat) (t : ImportController) : ImportController :=
  {| importFolders := importFolders t;
     credentials_keyFile := credentials_keyFile t;
     fileType := fileType t;
     uniqueImportTag := uniqueImportTag t;
     batchSize := batchSize t;
     batchCount := batchCount t;
     itemsCount := itemsCount t;
     operationsCount := v;
     currentOperationNumber := currentOperationNumber t;
     currentBatchNumber := currentBatchNumber t;
     currentItemNumber := currentItemNumber t;
     folders := folders t;
     items_resources := items_resources t;
     items_foldersPaths := items_foldersPaths t |}.

Definition set_currentOperationNumber (v : nat) (t : ImportController) : ImportController :=
  {| importFolders := importFolders t;
     credentials_keyFile := credentials_keyFile t;
     fileType := fileType t;
     uniqueImportTag := uniqueImportTag t;
     batchSize := batchSize t;
     batchCount := batchCount t;
     itemsCount := itemsCount t;
     operationsCount := operationsCount t;
     currentOperationNumber := v;
     currentBatchNumber := currentBatchNumber t;
     currentItemNumber := currentItemNumber t;
     folders := folders t;
     items_resources := items_resources t;
     items_foldersPaths := items_foldersPaths t |}.

Definition set_currentBatchNumber (v : nat) (t : ImportController) : ImportController :=
  {| importFolders := importFolders t;
     credentials_keyFile := credentials_keyFile t;
     fileType := fileType t;
     uniqueImportTag := uniqueImportTag t;
     batchSize := batchSize t;
     batchCount := batchCount t;
     itemsCount := itemsCount t;
     operationsCount := operationsCount t;
     currentOperationNumber := currentOperationNumber t;
     currentBatchNumber := v;
     currentItemNumber := currentItemNumber t;
     folders := folders t;
     items_resources := items_resources t;
     items_foldersPaths := items_foldersPaths t |}.

Definition set_currentItemNumber (v : nat) (t : ImportController) : ImportController :=
  {| importFolders := importFolders t;
     credentials_keyFile := credentials_keyFile t;
     fileType := fileType t;
     uniqueImportTag := uniqueImportTag t;
     batchSize := batchSize t;
     batchCount := batchCount t;
     itemsCount := itemsCount t;
     operationsCount := operationsCount t;
     currentOperationNumber := currentOperationNumber t;
     currentBatchNumber := currentBatchNumber t;
     currentItemNumber := v;
     folders := folders t;
     items_resources := items_resources t;
     items_foldersPaths := items_foldersPaths t |}.

Definition set_folders (v : gmap string Folder) (t : ImportController) : ImportController :=
  {| importFolders := importFolders t;
     credentials_keyFile := credentials_keyFile t;
     fileType := fileType t;
     uniqueImportTag := uniqueImportTag t;
     batchSize := batchSize t;
     batchCount := batchCount t;
     itemsCount := itemsCount t;
     operationsCount := operationsCount t;
     currentOperationNumber := currentOperationNumber t;
     currentBatchNumber := currentBatchNumber t;
     currentItemNumber := currentItemNumber t;
     folders := v;
     items_resources := items_resources t;
     items_foldersPaths := items_foldersPaths t |}.

Definition set_items_resources (v : list Resource) (t : ImportController) : ImportController :=
  {| importFolders := importFolders t;
     credentials_keyFile := credentials_keyFile t;
     fileType := fileType t;
     uniqueImportTag := uniqueImportTag t;
     batchSize := batchSize t;
     batchCount := batchCount t;
     itemsCount := itemsCount t;
     operationsCount := operationsCount t;
     currentOperationNumber := currentOperationNumber t;
     currentBatchNumber := currentBatchNumber t;
     currentItemNumber := currentItemNumber t;
     folders := folders t;
     items_resources := v;
     items_foldersPaths := items_foldersPaths t |}.

Definition set_items_foldersPaths (v : list string) (t : ImportController) : ImportController :=
  {| importFolders := importFolders t;
     credentials_keyFile := credentials_keyFile t;
     fileType := fileType t;
     uniqueImportTag := uniqueImportTag t;
     batchSize := batchSize t;
     batchCount := batchCount t;
     itemsCount := itemsCount t;
     operationsCount := operationsCount t;
     currentOperationNumber := currentOperationNumber t;
     currentBatchNumber := currentBatchNumber t;
     currentItemNumber := currentItemNumber t;
     folders := folders t;
     items_resources := items_resources t;
     items_foldersPaths := v |}.


(** The constructor.  [options] is read for [importFolders] and
    [credentials.keyFile] only. *)
Definition constructor (options_importFolders : bool) (options_keyFile : option string)
    (fileType : string) (today : JsDate) : ImportController :=
  {| importFolders := options_importFolders;
     credentials_keyFile := options_keyFile;
     fileType := fileType;
     uniqueImportTag := _generateUniqueImportTag fileType today;
     batchSize := 5;
     batchCount := 0;
     itemsCount := 0;
     operationsCount := 0;
     currentOperationNumber := 0;
     currentBatchNumber := 0;
     currentItemNumber := 0;
     folders := ∅;
     items_resources := [];
     items_foldersPaths := [] |}.

(** [getFolderFromPath].  Created folders are objects, hence truthy;
    the paths looked up all contain a slash, so that no property that
    the registry object inherits is ever read. *)
Definition getFolderFromPath (t : ImportController) (path : string) : option Folder :=
  folders t !! path.

(** ** Collaborators

    The decoders, the key directory, the encryption, the persistence
    calls and the event loop are outside the controller.  Each call
    reads and changes an outside world [World] and settles as the world
    decides.  [settle_order] is the order in which the pending promises
    of one batch settle: any rearrangement of the order of the calls. *)
Class Collaborators (World : Type) := {
  kdbx_toItems : World → World * Settled (list Resource * list string);
  csv_toResources : World → World * Settled (list Resource);
  user_id : World → string;
  keyring_sync : World → World * Settled unit;
  crypto_encryptAll : list Resource → World → World * (list EncryptCallback * Settled (list string));
  folderModel_create : FolderEntity → World → World * Settled Folder;
  Resource_import : Resource → World → World * Settled ResourceEntity;
  settle_order : World → ∀ A : Type, list A → list A;
  settle_order_perm : ∀ w A (l : list A), settle_order w A l ≡ₚ l
}.

(** The controller, the world outside it, and the calls made so far. *)
Record Env (World : Type) := { this : ImportController; world : World; log : list Event }.
Arguments this {World} _.
Arguments world {World} _.
Arguments log {World} _.

Definition upd_this {World} (f : ImportController → ImportController) (env : Env World) : Env World :=
  {| this := f (this env); world := world env; log := log env |}.

Definition set_world {World} (w : World) (env : Env World) : Env World :=
  {| this := this env; world := w; log := log env |}.

Definition emit {World} (ev : Event) (env : Env World) : Env World :=
  {| this := this env; world := world env; log := log env ++ [ev] |}.

(** Code of the controller: it changes the environment and completes. *)
Definition M (World A : Type) : Type := Env World → Env World * Completion A.

Definition ret {World A} (a : A) : M World A := λ env, (env, Returned a).

Definition bind {World A B} (c : M World A) (k : A → M World B) : M World B := λ env,
  match c env with
  | (env', Returned a) => k a env'
  | (env', Thrown e) => (env', Thrown e)
  | (env', Hangs) => (env', Hangs)
  end.

Definition throw {World A} (e : JsError) : M World A := λ env, (env, Thrown e).

Definition try_catch {World A} (body : M World A) (handler : JsError → M World A) : M World A := λ env,
  match body env with
  | (env', Thrown e) => handler e env'
  | r => r
  end.

Definition modify {World} (f : Env World → Env World) : M World unit := λ env, (f env, Returned ()).

Definition gets {World A} (f : ImportController → A) : M World A := λ env, (env, Returned (f (this env))).

(** [await] on a call to a collaborator. *)
Definition await {World A} (call : World → World * Settled A) : M World A := λ env,
  match call (world env) with
  | (w, Resolved a) => (set_world w env, Returned a)
  | (w, Rejected e) => (set_world w env, Thrown e)
  end.

Notation "'let*' x := c1 'in' c2" := (bind c1 (λ x, c2))
  (at level 10, x name, c1 at level 200, c2 at level 200).
Notation "c1 ;; c2" := (bind c1 (λ _, c2))
  (at level 100, c2 at level 200, right associativity).

(** An async function of the controller, called on an item: the code
    up to its first [await] runs at the call, in the environment of the
    call; what is left runs when the awaited promise settles, in the
    environment of that moment, and settles the promise of the call. *)
Definition AsyncFn (World I V : Type) : Type :=
  I → Env World → Env World * (Env World → Env World * Settled V).

Definition empty_results {V I} : ImportResults V I := {| created := []; errors := [] |}.

(** [String(e)], the message of the [Error(e)] that [exec] throws. *)
Definition error_text (e : JsError) : string :=
  match e with
  | ApiError _ => "[object Object]"
  | PlainError text => text
  end.

(** [ImportController._prepareResources]. *)
Definition _prepareResources (rs : list Resource) (uid : string) : list Resource :=
  (λ r, {| name := name r; secretClear := None; folderParentPath := folderParentPath r;
           userId := Some uid; message := secretClear r; secrets := secrets r;
           folder_parent_id := folder_parent_id r |}) <$> rs.

(** The body of the loop of [_enrichResourcesWithArmoredSecret] on
    resource [i] and [armoredSecrets[i]]. *)
Definition enrich_one (r : Resource) (armored : string) : Resource :=
  {| name := name r; secretClear := secretClear r; folderParentPath := folderParentPath r;
     userId := None; message := None;
     secrets := if decide (message r = Some "") then secrets r else Some [ {| data := armored |} ];
     folder_parent_id := folder_parent_id r |}.

Fixpoint enrich_all (rs : list Resource) (armoredSecrets : list string) : list Resource :=
  match rs, armoredSecrets with
  | r :: rs', a :: armoredSecrets' => enrich_one r a :: enrich_all rs' armoredSecrets'
  | _, _ => rs
  end.

Section Operations.
Context {World : Type} `{!Collaborators World}.

(** *** [progressController] *)

Definition progress_open (title : string) (goals : nat) (label : string) : M World unit :=
  modify (emit (EvProgressOpen title goals label)).

Definition progress_close : M World unit := modify (emit EvProgressClose).

(** *** Decoding *)

(** [initFromKdbx].  [credentials] is not bound in its scope: with a
    key file in the options the assignment to [credentials.keyFile]
    throws. *)
Definition initFromKdbx : M World unit :=
  let* keyFile := gets credentials_keyFile in
  match keyFile with
  | Some _ => throw (PlainError "ReferenceError: credentials is not defined")
  | None => ret ()
  end ;;
  let* items := await kdbx_toItems in
  modify (upd_this (λ t, set_items_foldersPaths items.2 (set_items_resources items.1 t))).

Definition initFromCsv : M World unit :=
  let* rs := await csv_toResources in
  modify (upd_this (set_items_resources rs)).

(** *** Normalising and counting *)

Definition _prepareFolders : M World unit :=
  modify (upd_this (λ t,
    set_items_foldersPaths (prepareFoldersPaths (uniqueImportTag t) (items_foldersPaths t)) t)).

Definition prepareProgressCounter : M World unit :=
  modify (upd_this (λ t,
    let t1 := set_operationsCount (operationsCount t + length (items_resources t) * 2) t in
    let t2 := set_itemsCount (length (items_resources t1)) t1 in
    if importFolders t2 then
      let t3 := set_operationsCount (operationsCount t2 + length (items_foldersPaths t2)) t2 in
      set_itemsCount (itemsCount t3 + length (items_foldersPaths t3)) t3
    else t2)).

(** *** Encryption *)

Definition encrypt_callback (cb : EncryptCallback) (env : Env World) : Env World :=
  match cb with
  | OnComplete =>
      upd_this (λ t, set_currentOperationNumber (currentOperationNumber t + 1) t)
        (emit (EvProgressUpdate (currentOperationNumber (this env)) None) env)
  | OnStart position =>
      emit (EvProgressUpdate (currentOperationNumber (this env))
              (Some ("Encrypting " +:+ toString (position + 1) +:+ "/" +:+
                     toString (length (items_resources (this env)))))) env
  end.

Definition _encryptSecretsForUser (uid : string) : M World (list string) :=
  modify (upd_this (λ t, set_items_resources (_prepareResources (items_resources t) uid) t)) ;;
  let* rs := gets items_resources in
  λ env,
    let '(w, (callbacks, settled)) := crypto_encryptAll rs (world env) in
    let env1 := foldl (λ e cb, encrypt_callback cb e) (emit (EvEncryptAll rs) (set_world w env)) callbacks in
    match settled with
    | Resolved armoredSecrets => (env1, Returned armoredSecrets)
    | Rejected e => (env1, Thrown e)
    end.

Definition _enrichResourcesWithArmoredSecret (armoredSecrets : list string) : M World unit :=
  let* rs := gets items_resources in
  if decide (length armoredSecrets ≠ length rs) then
    throw (PlainError "Error: There was a problem while encrypting the secrets")
  else modify (upd_this (set_items_resources (enrich_all rs armoredSecrets))).

(** [encryptSecretsAndAddToResources].  [this.resources] is another
    name of the array [this.items.resources]; its length is all that
    is read of it. *)
Definition encryptSecretsAndAddToResources : M World unit :=
  modify (upd_this (λ t, set_operationsCount (length (items_resources t) * 2) t)) ;;
  let* uid := (λ env, (env, Returned (user_id (world env)))) in
  modify (emit EvKeyringSync) ;;
  await keyring_sync ;;
  let* armoredSecrets := _encryptSecretsForUser uid in
  _enrichResourcesWithArmoredSecret armoredSecrets.

(** *** Workers *)

(** The call [folderModel.create(folderE)] of [saveFolder] and the
    code after its [await]. *)
Definition create_folder (folderPath : string) (folderE : FolderEntity) :
    Env World → Env World * (Env World → Env World * Settled (option Folder)) := λ env,
  let '(w, settled) := folderModel_create folderE (world env) in
  (emit (EvFolderCreate folderE) (set_world w env),
   λ env', match settled with
           | Resolved f =>
               (upd_this (λ t, set_folders (<[folderPath := f]> (folders t)) t) env',
                Resolved (Some f))
           | Rejected e => (env', Rejected e)
           end).

(** [saveFolder].  A skipped creation resolves with [undefined]
    ([None]) without any call. *)
Definition saveFolder : AsyncFn World string (option Folder) := λ folderPath env,
  let folderE := {| folder_name := folderName folderPath; folderParentId := None |} in
  if decide (folderParent folderPath ≠ "") then
    match getFolderFromPath (this env) (folderParent folderPath) with
    | None => (env, λ env', (env', Resolved None))
    | Some parentFolder =>
        create_folder folderPath
          {| folder_name := folder_name folderE; folderParentId := Some (id parentFolder) |} env
    end
  else create_folder folderPath folderE env.

(** [saveResource]. *)
Definition saveResource : AsyncFn World Resource ResourceEntity := λ resource env,
  let folderPath := _getConsolidatedPath (uniqueImportTag (this env)) (folderParentPath resource) in
  let resource' :=
    match getFolderFromPath (this env) folderPath with
    | Some folderExist =>
        if importFolders (this env) then
          {| name := name resource; secretClear := secretClear resource;
             folderParentPath := folderParentPath resource; userId := userId resource;
             message := message resource; secrets := secrets resource;
             folder_parent_id := Some (id folderExist) |}
        else resource
    | None => resource
    end in
  let '(w, settled) := Resource_import resource' (world env) in
  (emit (EvResourceImport resource') (set_world w env), λ env', (env', settled)).

(** *** Batch scheduler *)

(** [resourcesBatch.map(resource => importFn(resource) ...)]: every
    call is made, in the order of the batch, before any promise
    settles. *)
Fixpoint start_all {I V} (importFn : AsyncFn World I V) (batch : list I) (env : Env World) :
    Env World * list (I * (Env World → Env World * Settled V)) :=
  match batch with
  | [] => (env, [])
  | item :: rest =>
      let '(env1, k) := importFn item env in
      let '(env2, ks) := start_all importFn rest env1 in
      (env2, (item, k) :: ks)
  end.

(** The counters and the progress update common to the two handlers
    of [importBatch]. *)
Definition count_item (env : Env World) : Env World :=
  let env1 := upd_this (λ t, set_currentItemNumber (currentItemNumber t + 1) t) env in
  let env2 := upd_this (λ t, set_currentOperationNumber (currentOperationNumber t + 1) t) env1 in
  emit (EvProgressUpdate (currentOperationNumber (this env2))
          (Some ("Importing...  " +:+ toString (currentItemNumber (this env2)) +:+ "/" +:+
                 toString (itemsCount (this env2))))) env2.

(** One promise of the batch settles: the rest of the worker runs,
    then the [then] handler or the [catch] handler.  The [catch]
    handler reads [e.header.message]; on a value without [header] this
    throws a [TypeError], which rejects [Promise.all].  The entry of
    [errors] holds the item that was passed to the worker (in the
    source the object itself, on which [saveResource] may have set
    [folder_parent_id]). *)
Definition settle_one {I V}
    (st : Env World * ImportResults V I * option JsError)
    (p : I * (Env World → Env World * Settled V)) :
    Env World * ImportResults V I * option JsError :=
  let '(env, importResults, rejection) := st in
  let '(env1, settled) := p.2 env in
  let env2 := count_item env1 in
  match settled with
  | Resolved v =>
      (env2, {| created := created importResults ++ [v]; errors := errors importResults |}, rejection)
  | Rejected (ApiError header_message) =>
      (env2, {| created := created importResults;
                errors := errors importResults ++ [ {| error := header_message; resource := p.1 |} ] |},
       rejection)
  | Rejected (PlainError _) =>
      (env2, importResults,
       match rejection with
       | None => Some (PlainError "TypeError: e.header is undefined")
       | Some _ => rejection
       end)
  end.

(** [importBatch].  The promises settle one after the other, in the
    order that the world decides; for each the rest of the worker and
    its handler run together (the rest of [saveFolder] writes the
    registry only and the handlers never read it, so that no
    interleaving is lost).  The handlers of the promises that settle
    after a rejection of [Promise.all] still run; they run here before
    the rejection is seen by the caller. *)
Definition importBatch {I V} (resourcesBatch : list I) (importFn : AsyncFn World I V) :
    M World (ImportResults V I) := λ env,
  let env0 := upd_this (λ t, set_currentBatchNumber (currentBatchNumber t + 1) t) env in
  let '(env1, promises) := start_all importFn resourcesBatch env0 in
  let '(env2, importResults, rejection) :=
    foldl settle_one (env1, empty_results, None) (settle_order (world env1) _ promises) in
  match rejection with
  | None => (env2, Returned importResults)
  | Some e => (env2, Thrown e)
  end.

(** [prepareBatches]. *)
Definition prepareBatches {A} (items : list A) : M World (list (list A)) := λ env,
  match prepareBatches_list (batchSize (this env)) items with
  | Some batches =>
      (upd_this (λ t, set_batchCount (batchCount t + length batches) t) env, Returned batches)
  | None => (env, Hangs)
  end.

(** [processBatches]: the loop over the batches, with the results so
    far, and the function. *)
Fixpoint processBatches_from {I V} (batchResults : ImportResults V I)
    (batches : list (list I)) (importFn : AsyncFn World I V) : M World (ImportResults V I) :=
  match batches with
  | [] => ret batchResults
  | batch :: rest =>
      let* importBatchResult := importBatch batch importFn in
      processBatches_from
        {| created := created batchResults ++ created importBatchResult;
           errors := errors batchResults ++ errors importBatchResult |}
        rest importFn
  end.

Definition processBatches {I V} (batches : list (list I)) (importFn : AsyncFn World I V) :
    M World (ImportResults V I) :=
  processBatches_from empty_results batches importFn.

(** *** Orchestrator *)

(** [exec] up to the opening of the progress dialog. *)
Definition exec_prepare : M World unit :=
  (let* ft := gets fileType in
   if decide (ft = "kdbx") then initFromKdbx
   else if decide (ft = "csv") then initFromCsv
   else ret ()) ;;
  _prepareFolders ;;
  prepareProgressCounter ;;
  let* goals := gets operationsCount in
  progress_open "Importing ..." goals "Preparing import".

(** The [try] block of [exec]. *)
Definition exec_import : M World ExecResult :=
  encryptSecretsAndAddToResources ;;
  let* withFolders := gets importFolders in
  let* folders :=
    (if withFolders : bool then
       let* paths := gets items_foldersPaths in
       let* folderBatches := prepareBatches paths in
       let* r := processBatches folderBatches saveFolder in
       ret (Some r)
     else ret None) in
  let* rs := gets items_resources in
  let* resourceBatches := prepareBatches rs in
  let* resources := processBatches resourceBatches saveResource in
  progress_close ;;
  let* tag := gets uniqueImportTag in
  ret {| result_resources := resources; result_folders := folders; result_importTag := tag |}.

Definition exec : M World ExecResult :=
  exec_prepare ;;
  try_catch exec_import (λ e, progress_close ;; throw (PlainError ("Error: " +:+ error_text e))).

End Operations.

(** ** Vocabulary of the properties *)

(** The persistence calls among the events. *)
Definition is_creation (ev : Event) : bool :=
  match ev with
  | EvFolderCreate _ | EvResourceImport _ => true
  | _ => false
  end.

(** [saveFolder] skips the path: its parent path is not empty and is
    not in the registry. *)
Definition skips (registry : gmap string Folder) (folderPath : string) : bool :=
  bool_decide (folderParent folderPath ≠ "" ∧ registry !! folderParent folderPath = None).




(** Every rejection of the worker is a value with [header.message]. *)
Definition rejects_with_header {World I V} (importFn : AsyncFn World I V) : Prop :=
  ∀ item env env' e, ((importFn item env).2 env').2 = Rejected e → ∃ m, e = ApiError m.

(** ** Collaborators for the examples

    A world that counts the calls made.  Folder and resource creation
    succeed with the count as identifier, except that a folder named
    ["denied"] is refused by the API and a resource named ["offline"]
    fails with a plain [Error]; promises settle in the order of the
    calls. *)
Definition example_encryptAll (rs : list Resource) (w : nat) :
    nat * (list EncryptCallback * Settled (list string)) :=
  (S w, (flat_map (λ i, [OnStart i; OnComplete]) (seq 0 (length rs)),
         Resolved ((λ r, "armored:" +:+ default "" (message r)) <$> rs))).

#[local] Instance example_collaborators : Collaborators nat := {|
  kdbx_toItems w := (S w, Resolved ([], []));
  csv_toResources w := (S w, Resolved []);
  user_id _ := "user-1";
  keyring_sync w := (S w, Resolved ());
  crypto_encryptAll := example_encryptAll;
  folderModel_create e w :=
    (S w, if decide (folder_name e = "denied") then Rejected (ApiError "denied")
          else Resolved {| id := "folder-" +:+ toString w |});
  Resource_import r w :=
    (S w, if decide (name r = "offline") then Rejected (PlainError "Error: NetworkError")
          else if decide (name r = "refused") then Rejected (ApiError "Could not validate resource data.")
          else Resolved {| resource_id := "resource-" +:+ toString w |});
  settle_order _ _ l := l;
  settle_order_perm _ _ l := reflexivity l
|}.

(** A fresh controller for the examples. *)
Definition example_controller (withFolders : bool) (fileType : string) : ImportController :=
  constructor withFolders None fileType
    {| getFullYear := 2024; getMonth := 0; getDate := 1;
       getHours := 12; getMinutes := 30; getSeconds := 45 |}.

Definition example_env (t : ImportController) : Env nat :=
  {| this := t; world := 0; log := [] |}.

Definition example_resource (n : string) (path : option string) : Resource :=
  {| name := n; secretClear := Some "secret"; folderParentPath := path; userId := None;
     message := None; secrets := None; folder_parent_id := None |}.

(** Twelve resources; the seventh is refused by the API. *)
Definition example_resources : list Resource :=
  (λ i, example_resource (if decide (i = 7) then "refused" else "r" +:+ toString i) None)
    <$> seq 1 12.

(** The same collaborators with a delimited file of two resources and
    an encryption that loses the first payload. *)
Definition truncating_collaborators : Collaborators nat := {|
  kdbx_toItems := kdbx_toItems;
  csv_toResources w := (S w, Resolved [example_resource "a" None; example_resource "b" None]);
  user_id := user_id;
  keyring_sync := keyring_sync;
  crypto_encryptAll rs w :=
    (S w, ([], Resolved (drop 1 ((λ r, "armored:" +:+ default "" (message r)) <$> rs))));
  folderModel_create := folderModel_create;
  Resource_import := Resource_import;
  settle_order := settle_order;
  settle_order_perm := settle_order_perm
|}.

(** The same collaborators with files that hold three resources, one
    of them refused by the API, and for the kdbx file two folders; and
    with files that cannot be decoded. *)
Definition filled_collaborators : Collaborators nat := {|
  kdbx_toItems w :=
    (S w, Resolved ([example_resource "a" (Some "Work"); example_resource "refused" None;
                     example_resource "b" (Some "Work/Sub")],
                    ["Work"; "Work/Sub"]));
  csv_toResources w :=
    (S w, Resolved [example_resource "a" (Some "Work"); example_resource "refused" None;
                    example_resource "b" (Some "Work/Sub")]);
  user_id := user_id;
  keyring_sync := keyring_sync;
  crypto_encryptAll := crypto_encryptAll;
  folderModel_create := folderModel_create;
  Resource_import := Resource_import;
  settle_order := settle_order;
  settle_order_perm := settle_order_perm
|}.

Definition undecodable_collaborators : Collaborators nat := {|
  kdbx_toItems w := (S w, Rejected (PlainError "Error: Invalid credentials"));
  csv_toResources w := (S w, Rejected (PlainError "Error: Invalid csv file"));
  user_id := user_id;
  keyring_sync := keyring_sync;
  crypto_encryptAll := crypto_encryptAll;
  folderModel_create := folderModel_create;
  Resource_import := Resource_import;
  settle_order := settle_order;
  settle_order_perm := settle_order_perm
|}.

(** ** Vocabulary of the further properties *)

(** The folder and resource creation calls of a log, in their order. *)
Definition creations (l : list Event) : list Event :=
  filter (λ ev, is_creation ev = true) l.

(** The entity that [saveFolder] builds for a path that it does not
    skip, given the registry it reads. *)
Definition folder_entity (registry : gmap string Folder) (folderPath : string) : FolderEntity :=
  {| folder_name := folderName folderPath;
     folderParentId := if decide (folderParent folderPath ≠ "")
                       then id <$> registry !! folderParent folderPath
                       else None |}.

(** The resource as [saveResource] hands it to [Resource.import]. *)
Definition with_folder (t : ImportController) (r : Resource) : Resource :=
  match getFolderFromPath t (_getConsolidatedPath (uniqueImportTag t) (folderParentPath r)) with
  | Some folderExist =>
      if importFolders t then
        {| name := name r; secretClear := secretClear r;
           folderParentPath := folderParentPath r; userId := userId r;
           message := message r; secrets := secrets r;
           folder_parent_id := Some (id folderExist) |}
      else r
  | None => r
  end.

(** A resource without clear secret and without the fields of the
    encryption stage. *)
Definition sealed (r : Resource) : Prop :=
  secretClear r = None ∧ message r = None ∧ userId r = None.

(** What the batch scheduler and the two workers leave alone: the
    options, the tag, the batch size, the items and the two totals. *)
Definition same_items (t t' : ImportController) : Prop :=
  importFolders t' = importFolders t ∧
  uniqueImportTag t' = uniqueImportTag t ∧
  batchSize t' = batchSize t ∧
  itemsCount t' = itemsCount t ∧
  operationsCount t' = operationsCount t ∧
  items_resources t' = items_resources t ∧
  items_foldersPaths t' = items_foldersPaths t.

(** A worker that leaves alone the items and the counters of the
    scheduler, at the call and when its promise settles. *)
Definition quiet (t t' : ImportController) : Prop :=
  same_items t t' ∧
  currentItemNumber t' = currentItemNumber t ∧
  currentOperationNumber t' = currentOperationNumber t ∧
  currentBatchNumber t' = currentBatchNumber t.

Definition quiet_worker {World I V} (importFn : AsyncFn World I V) : Prop :=
  ∀ item env, quiet (this env) (this (importFn item env).1) ∧
              ∀ env', quiet (this env') (this ((importFn item env).2 env').1).

(** What the promise of [saveFolder] for a path does when it
    settles, given the registry that was read at the call: nothing for
    a skipped path; for another path it stores the created folder under
    the path, or it rejects. *)
Definition folder_promise {World} (registry : gmap string Folder)
    (p : string * (Env World → Env World * Settled (option Folder))) : Prop :=
  if skips registry p.1 then ∀ env', p.2 env' = (env', Resolved None)
  else (∃ f, ∀ env', p.2 env'
             = (upd_this (λ t, set_folders (<[p.1 := f]> (folders t)) t) env', Resolved (Some f)))
       ∨ (∃ e, ∀ env', p.2 env' = (env', Rejected e)).

(** The resources handed to [Resource.import], in the order of the
    calls. *)
Definition sent (l : list Event) : list Resource :=
  omap (λ ev, match ev with EvResourceImport r => Some r | _ => None end) l.

(** Code that makes no creation call, however it completes. *)
Definition callless {World A} (c : M World A) : Prop :=
  ∀ env, creations (log (c env).1) = creations (log env).




(** * Properties *)

Example consolidated_root : _getConsolidatedPath "import-csv-20240101120000" (Some "") = "/import-csv-20240101120000".
Proof. reflexivity. Qed.

Example consolidated_sub : _getConsolidatedPath "import-csv-20240101120000" (Some "Work/Sub") = "/import-csv-20240101120000/Work/Sub".
Proof. reflexivity. Qed.

Example consolidated_legacy : _getConsolidatedPath "T" (Some "/Root/a/Root/b") = "/T/a/Root/b".
Proof. reflexivity. Qed.

Example tag_example :
  _generateUniqueImportTag "kdbx" {| getFullYear := 2024; getMonth := 10; getDate := 3;
      getHours := 14; getMinutes := 25; getSeconds := 36 |} = "import-kdbx-20241103142536".
Proof. vm_compute. reflexivity. Qed.

(** ** Strings *)

Lemma str_app_cons (c : ascii) (a b : string) : String c a +:+ b = String c (a +:+ b).
Proof. done. Qed.

Lemma str_app_nil_l (s : string) : "" +:+ s = s.
Proof. done. Qed.

Lemma str_app_nil_r (s : string) : s +:+ "" = s.
Proof. induction s as [|c s IH]; [done|]. by rewrite str_app_cons, IH. Qed.

Lemma str_app_assoc (a b c : string) : (a +:+ b) +:+ c = a +:+ b +:+ c.
Proof. induction a as [|x a IH]; [done|]. by rewrite !str_app_cons, IH. Qed.

Lemma str_length_app (a b : string) :
  String.length (a +:+ b) = String.length a + String.length b.
Proof. induction a as [|x a IH]; [done|]. rewrite str_app_cons. cbn. by rewrite IH. Qed.

Lemma strip_prefix_spec (p s r : string) :
  Js.strip_prefix p s = Some r ↔ s = p +:+ r.
Proof.
  revert s. induction p as [|a p IH]; intros s; cbn.
  - rewrite str_app_nil_l. split; intros; congruence.
  - destruct s as [|b s]; [split; intros; discriminate|].
    destruct (decide (a = b)) as [->|Hne].
    + rewrite IH, str_app_cons. split; intros; congruence.
    + rewrite str_app_cons. split; intros; congruence.
Qed.

Lemma find_Some (pat s pre post : string) :
  Js.find pat s = Some (pre, post) → s = pre +:+ pat +:+ post.
Proof.
  revert pre. induction s as [|c s IH]; intros pre; cbn.
  - destruct (Js.strip_prefix pat "") eqn:E; [|done].
    intros [= <- <-]. by apply strip_prefix_spec in E.
  - destruct (Js.strip_prefix pat (String c s)) eqn:E.
    + intros [= <- <-]. by apply strip_prefix_spec in E.
    + destruct (Js.find pat s) as [[pre' post']|]; [|done].
      intros [= <- <-]. by rewrite (IH pre' eq_refl).
Qed.

(** The occurrence that [Js.find] returns is the first one. *)
Lemma find_first (pat s pre post pre' post' : string) :
  Js.find pat s = Some (pre, post) → s = pre' +:+ pat +:+ post' →
  String.length pre ≤ String.length pre'.
Proof.
  revert pre pre'. induction s as [|c s IH]; intros pre pre'; cbn.
  - destruct (Js.strip_prefix pat ""); [|done]. intros [= <- <-]. cbn. lia.
  - destruct (Js.strip_prefix pat (String c s)) eqn:E.
    + intros [= <- <-]. cbn. lia.
    + destruct (Js.find pat s) as [[pre0 post0]|] eqn:F; [|done].
      intros [= <- <-] Hs. destruct pre' as [|c' pre'].
      * rewrite str_app_nil_l in Hs. apply strip_prefix_spec in Hs. congruence.
      * rewrite str_app_cons in Hs. injection Hs as -> Hs. cbn.
        specialize (IH _ _ eq_refl Hs). lia.
Qed.

Lemma find_None (pat s pre post : string) :
  Js.find pat s = None → s ≠ pre +:+ pat +:+ post.
Proof.
  revert pre. induction s as [|c s IH]; intros pre; cbn.
  - destruct (Js.strip_prefix pat "") eqn:E; [done|]. intros _ Hs.
    destruct pre; [|done]. rewrite str_app_nil_l in Hs. apply strip_prefix_spec in Hs. congruence.
  - destruct (Js.strip_prefix pat (String c s)) eqn:E; [done|].
    destruct (Js.find pat s) as [[pre0 post0]|] eqn:F; [done|]. intros _ Hs.
    destruct pre as [|c' pre].
    + rewrite str_app_nil_l in Hs. apply strip_prefix_spec in Hs. congruence.
    + rewrite str_app_cons in Hs. injection Hs as -> Hs. by eapply IH.
Qed.

(** [includes] is the test for an occurrence. *)
Lemma includes_spec (pat s : string) :
  Js.includes pat s = true ↔ ∃ pre post, s = pre +:+ pat +:+ post.
Proof.
  unfold Js.includes. destruct (Js.find pat s) as [[pre post]|] eqn:F.
  - split; [|done]. intros _. exists pre, post. by apply find_Some.
  - split; [done|]. intros (pre & post & Hs). by apply find_None with (pre:=pre) (post:=post) in F.
Qed.

Lemma has_char_app (c : ascii) (a b : string) :
  Js.has_char c (a +:+ b) = Js.has_char c a || Js.has_char c b.
Proof. induction a as [|x a IH]; [done|]. rewrite str_app_cons. cbn. by destruct (decide (x = c)). Qed.

(** A replacement text without [$] is inserted as it is. *)
Lemma getSubstitution_plain (matched pre post repl : string) :
  Js.has_char "$" repl = false → Js.getSubstitution matched pre post repl = repl.
Proof.
  induction repl as [|c r IH]; [done|]. cbn [Js.has_char].
  destruct (decide (c = "$"%char)) as [->|Hc]; [done|]. intros Hr.
  transitivity (String c (Js.getSubstitution matched pre post r)); [|by rewrite IH].
  destruct c as [[] [] [] [] [] [] [] []]; try done.
Qed.

(** ** Path normaliser *)


Lemma consolidated_legacy_case (tag p pre post : string) :
  Js.has_char "$" tag = false →
  Js.find "/Root/" p = Some (pre, post) →
  _getConsolidatedPath tag (Some p) = pre +:+ "/" +:+ tag +:+ "/" +:+ post.
Proof.
  intros Htag Hfind. cbn [_getConsolidatedPath].
  destruct (decide (p = "" ∨ p = "/")) as [[->| ->]|_]; [done..|].
  unfold Js.includes, Js.replace. rewrite Hfind.
  rewrite getSubstitution_plain.
  - by rewrite !str_app_assoc.
  - rewrite !has_char_app, Htag. done.
Qed.

Lemma consolidated_other_case (tag p : string) :
  p ≠ "" → p ≠ "/" → Js.includes "/Root/" p = false →
  _getConsolidatedPath tag (Some p) = "/" +:+ tag +:+ "/" +:+ p.
Proof.
  intros H1 H2 Hinc. cbn [_getConsolidatedPath].
  destruct (decide (p = "" ∨ p = "/")) as [[?|?]|_]; [done..|].
  by rewrite Hinc.
Qed.




(** Every tag generated for the two file types of the controller is
    free of dollar signs. *)
Lemma toString_no_dollar (n : nat) : Js.has_char "$" (toString n) = false.
Proof.
  unfold toString, pretty, pretty_nat, pretty, pretty_N.
  case_decide; [done|].
  assert (∀ x s, Js.has_char "$" s = false → Js.has_char "$" (pretty_N_go x s) = false) as go.
  { intros x. induction (N.lt_wf_0 x) as [x _ IH]; intros s Hs.
    destruct (decide (x = 0)%N) as [->|]; [by rewrite pretty_N_go_0|].
    rewrite pretty_N_go_step by lia. apply IH.
    - apply N.div_lt; lia.
    - cbn [Js.has_char]. rewrite Hs. unfold pretty_N_char. by repeat case_match. }
  by apply go.
Qed.

Lemma has_char_substring (c : ascii) (n m : nat) (s : string) :
  Js.has_char c s = false → Js.has_char c (String.substring n m s) = false.
Proof.
  revert n m. induction s as [|d s IH]; intros n m; [by destruct n, m|].
  cbn [Js.has_char]. destruct (decide (d = c)) as [|Hd]; [done|]. intros Hs.
  destruct n as [|n]; [destruct m as [|m]|]; cbn; [done| |by apply IH].
  rewrite decide_False by done. by apply IH.
Qed.

Lemma generated_tag_no_dollar (fileType : string) (today : JsDate) :
  Js.has_char "$" fileType = false →
  Js.has_char "$" (_generateUniqueImportTag fileType today) = false.
Proof.
  intros Hft. unfold _generateUniqueImportTag, importDate, Js.slice_neg.
  rewrite !has_char_app, Hft, !toString_no_dollar.
  rewrite !has_char_substring; [done|rewrite has_char_app, toString_no_dollar; done..].
Qed.

(** With such a tag the raw paths that consolidate to the root are the
    empty path and ["/"]. *)
Lemma consolidated_is_root (tag p : string) :
  Js.has_char "$" tag = false →
  _getConsolidatedPath tag (Some p) = "/" +:+ tag ↔ p = "" ∨ p = "/".
Proof.
  intros Htag. split; [|by intros [->| ->]].
  intros Heq. destruct (decide (p = "" ∨ p = "/")) as [|Hp]; [done|]. exfalso.
  apply (f_equal String.length) in Heq. revert Heq.
  destruct (Js.find "/Root/" p) as [[pre post]|] eqn:F.
  - rewrite (consolidated_legacy_case tag p pre post Htag F).
    rewrite !str_length_app. cbn. lia.
  - rewrite consolidated_other_case.
    + rewrite !str_length_app. cbn. lia.
    + tauto.
    + tauto.
    + unfold Js.includes. by rewrite F.
Qed.

(** ** Folder list *)

Lemma js_sort_perm (l : list string) : js_sort l ≡ₚ l.
Proof. apply merge_sort_Permutation. Qed.

Lemma js_sort_sorted (l : list string) : StronglySorted String.le (js_sort l).
Proof. apply StronglySorted_merge_sort; apply _. Qed.

(** The sorted array is the same for every sorting algorithm. *)
Lemma js_sort_unique (l l' : list string) :
  l' ≡ₚ l → Sorted String.le l' → l' = js_sort l.
Proof.
  intros Hp Hs. apply (Sorted_unique String.le); [done| |].
  - apply Sorted_merge_sort; apply _.
  - by rewrite js_sort_perm.
Qed.

(** C9 (amended).  After [_prepareFolders] the root path occurs in the
    folder list once if at most one decoded path consolidates to it,
    and as many times as there are such paths otherwise: the root is
    added when absent, and nothing removes duplicates. *)
Theorem prepareFolders_root_count {World : Type} (env : Env World) :
  let tag := uniqueImportTag (this env) in
  let consolidated := (λ p, _getConsolidatedPath tag (Some p)) <$> items_foldersPaths (this env) in
  count_occ string_dec (items_foldersPaths (this (_prepareFolders env).1)) ("/" +:+ tag)
  = Nat.max 1 (count_occ string_dec consolidated ("/" +:+ tag)).
Proof.
  intros tag consolidated. cbn. unfold prepareFoldersPaths. fold tag. fold consolidated.
  change (_getConsolidatedPath tag (Some "/")) with ("/" +:+ tag).
  erewrite (proj1 (Permutation_count_occ string_dec _ _)) by apply js_sort_perm.
  case_bool_decide as Hin.
  - apply list_elem_of_In, (count_occ_In string_dec) in Hin. lia.
  - rewrite count_occ_cons_eq by done.
    rewrite list_elem_of_In in Hin. apply (count_occ_not_In string_dec) in Hin. lia.
Qed.

(** C9, counterexample.  The decoded paths [""] and ["/"] both
    consolidate to the root, which then occurs twice. *)
Lemma prepareFolders_root_twice_counterexample :
  let t := set_items_foldersPaths [""; "/"; "Work"]
             (constructor true None "kdbx" {| getFullYear := 2024; getMonth := 0; getDate := 1;
                 getHours := 12; getMinutes := 30; getSeconds := 45 |}) in
  let env := {| this := t; world := (); log := [] |} in
  items_foldersPaths (this (_prepareFolders env).1)
  = ["/import-kdbx-20240101123045"; "/import-kdbx-20240101123045";
     "/import-kdbx-20240101123045/Work"] ∧
  count_occ string_dec (items_foldersPaths (this (_prepareFolders env).1)) ("/" +:+ uniqueImportTag t) ≠ 1.
Proof. vm_compute. split; [reflexivity|discriminate]. Qed.

(** ** Parents and children in the sorted list *)

(** The segments of a string, rejoined, are the string: the last
    segment follows the joined others after a slash. *)
Lemma join_cons (sep x y : string) (l : list string) :
  Js.join sep (x :: y :: l) = x +:+ sep +:+ Js.join sep (y :: l).
Proof. done. Qed.

Lemma split_last (s : string) :
  ∃ init name, Js.split "/" s = init ++ [name] ∧
    s = match init with [] => name | _ => Js.join "/" init +:+ "/" +:+ name end.
Proof.
  induction s as [|c s (init & name & Hsplit & Hs)].
  - by exists [], "".
  - cbn [Js.split]. rewrite Hsplit. destruct (decide (c = "/"%char)) as [->|Hc].
    + exists ("" :: init), name. split; [done|].
      destruct init as [|h init]; [by rewrite Hs|].
      rewrite join_cons, str_app_nil_l, str_app_assoc, <-Hs. done.
    + destruct init as [|h init].
      * exists [], (String c name). cbn. by rewrite Hs.
      * exists (String c h :: init), name. split; [done|].
        rewrite Hs. destruct init as [|h' init]; [done|].
        by rewrite !join_cons, !str_app_cons.
Qed.

(** A path that starts with a slash is its parent path, a slash and
    its name. *)
Lemma folderParent_name (rest : string) :
  let P := String "/" rest in
  P = folderParent P +:+ "/" +:+ folderName P.
Proof.
  cbn zeta. unfold folderParent, folderName, folderSplit. cbn [Js.strip_leading_slash].
  destruct (split_last rest) as (init & name & -> & Hrest).
  rewrite removelast_last, last_last.
  destruct init as [|h init].
  - by rewrite Hrest.
  - rewrite str_app_assoc, <-Hrest. done.
Qed.

Lemma compare_refl (s : string) : String.compare s s = Eq.
Proof.
  induction s as [|c s IH]; [done|]. cbn.
  unfold Ascii.compare. by rewrite N.compare_refl.
Qed.

(** A proper prefix sorts before the string. *)
Lemma prefix_lt (a rest : string) :
  rest ≠ "" → String.compare a (a +:+ rest) = Lt.
Proof.
  intros Hrest. induction a as [|c a IH].
  - rewrite str_app_nil_l. by destruct rest.
  - rewrite str_app_cons. cbn. unfold Ascii.compare. by rewrite N.compare_refl.
Qed.

Lemma lt_not_le (a b : string) : String.compare a b = Lt → ¬ String.le b a.
Proof.
  unfold String.le, String.leb. rewrite (String.compare_antisym a b).
  destruct (String.compare b a); cbn; intuition congruence.
Qed.

Lemma sorted_lookup {A} (R : relation A) (l : list A) (i j : nat) (x y : A) :
  StronglySorted R l → i < j → l !! i = Some x → l !! j = Some y → R x y.
Proof.
  intros Hs. revert i j. induction Hs as [|a l _ IH Hall]; intros i j Hij Hi Hj; [done|].
  destruct j as [|j]; [lia|]. destruct i as [|i]; cbn in *.
  - injection Hi as ->. rewrite Forall_forall in Hall.
    apply Hall, list_elem_of_lookup. eauto.
  - apply (IH i j); [lia|done..].
Qed.

(** The index of a parent path in a sorted list is below the index
    of its child. *)
Lemma parent_sorts_first (paths : list string) (rest : string) (i j : nat) :
  let P := String "/" rest in
  js_sort paths !! i = Some P →
  js_sort paths !! j = Some (folderParent P) →
  j < i.
Proof.
  intros P Hi Hj.
  pose proof (folderParent_name rest) as HP. cbn zeta in HP. fold P in HP.
  revert Hj HP. generalize (folderParent P). clearbody P. intros Q Hj HP.
  assert (String.compare Q P = Lt) as Hlt.
  { rewrite HP. by apply prefix_lt. }
  destruct (decide (j < i)) as [|Hge]; [done|]. exfalso.
  destruct (decide (i = j)) as [->|Hne].
  - rewrite Hi in Hj. injection Hj as Hj. rewrite <-Hj, compare_refl in Hlt. done.
  - apply (lt_not_le _ _ Hlt).
    apply (sorted_lookup String.le (js_sort paths) i j); [apply js_sort_sorted|lia|done..].
Qed.

(** C7.  In the sorted list of folder paths, a path that starts
    with a slash (as every path in the namespace of the tag does) comes
    after every occurrence of its parent path. *)
Theorem sort_parent_before_child (paths : list string) (rest : string) (i j : nat) :
  let P := String "/" rest in
  js_sort paths !! i = Some P →
  js_sort paths !! j = Some (folderParent P) →
  j < i.
Proof. apply parent_sorts_first. Qed.

Lemma sort_parent_before_child_witness :
  let paths := ["/t/A/B"; "/t/A"; "/t"; "/t/A/C"] in
  js_sort paths = ["/t"; "/t/A"; "/t/A/B"; "/t/A/C"] ∧
  folderParent "/t/A/B" = "/t/A" ∧
  1 < 2.
Proof.
  split; [reflexivity|]. split; [reflexivity|].
  apply (sort_parent_before_child ["/t/A/B"; "/t/A"; "/t"; "/t/A/C"] "t/A/B" 2 1); reflexivity.
Defined.

(** The folder list that [_prepareFolders] leaves is such a list. *)
Corollary prepareFolders_parent_before_child {World : Type} (env : Env World)
    (rest : string) (i j : nat) :
  let sorted := items_foldersPaths (this (_prepareFolders env).1) in
  sorted !! i = Some (String "/" rest) →
  sorted !! j = Some (folderParent (String "/" rest)) →
  j < i.
Proof. cbn. unfold prepareFoldersPaths. apply parent_sorts_first. Qed.

(** ** Import tag *)

(** C10.  At 09:05:03 on the first of January 2024 the date part of
    the tag has eleven digits: hours, minutes and seconds are not
    padded, unlike the month and the day. *)
Theorem generateUniqueImportTag_unpadded :
  let today := {| getFullYear := 2024; getMonth := 0; getDate := 1;
                  getHours := 9; getMinutes := 5; getSeconds := 3 |} in
  _generateUniqueImportTag "csv" today = "import-csv-20240101953" ∧
  String.length (importDate today) = 11.
Proof. vm_compute. done. Qed.

Lemma toString_length2 (n : nat) : 10 ≤ n < 100 → String.length (toString n) = 2.
Proof.
  intros Hn.
  assert (forallb (λ k, String.length (toString k) =? 2) (seq 10 90) = true) as Hall
    by (vm_compute; reflexivity).
  rewrite forallb_forall in Hall. apply Nat.eqb_eq, Hall, in_seq. lia.
Qed.

Lemma toString_length4 (n : nat) : 1000 ≤ n < 10 * 1000 → String.length (toString n) = 4.
Proof.
  intros Hn.
  assert (forallb (λ k, String.length (toString k) =? 4) (seq 1000 (9 * 1000)) = true) as Hall
    by (vm_compute; reflexivity).
  rewrite forallb_forall in Hall. apply Nat.eqb_eq, Hall, in_seq. lia.
Qed.

Lemma padded_length2 (n : nat) : n < 100 → String.length (Js.slice_neg 2 ("0" +:+ toString n)) = 2.
Proof.
  intros Hn.
  assert (forallb (λ k, String.length (Js.slice_neg 2 ("0" +:+ toString k)) =? 2) (seq 0 100) = true)
    as Hall by (vm_compute; reflexivity).
  rewrite forallb_forall in Hall. apply Nat.eqb_eq, Hall, in_seq. lia.
Qed.

(** The padding that is missing is all that is missing: from ten
    o'clock on, in minutes and seconds of two digits, the date part has
    its fourteen characters. *)
Lemma importDate_length (today : JsDate) :
  1000 ≤ getFullYear today < 10 * 1000 → getMonth today < 12 → getDate today < 100 →
  10 ≤ getHours today < 100 → 10 ≤ getMinutes today < 100 → 10 ≤ getSeconds today < 100 →
  String.length (importDate today) = 14.
Proof.
  intros Hy Hm Hd Hh Hi Hs. unfold importDate.
  rewrite !str_length_app, toString_length4, !padded_length2, !toString_length2 by lia. done.
Qed.

(** ** Batches *)

Lemma prepareBatches_loop_spec {A} (batchSize : nat) (items : list A) (fuel i : nat)
    (batches : list (list A)) :
  0 < batchSize → length items - i * batchSize ≤ fuel →
  ∃ tail, prepareBatches_loop fuel batchSize items i (i * batchSize) batches = Some (batches ++ tail) ∧
    concat tail = drop (i * batchSize) items ∧
    Forall (λ b, length b ≤ batchSize) tail ∧
    (tail ≠ [] → i * batchSize < length items) ∧
    (∀ init final, tail = init ++ [final] → Forall (λ b, length b = batchSize) init).
Proof.
  intros Hbs. revert i batches. induction fuel as [|fuel IH]; intros i batches Hfuel.
  - exists []. cbn. rewrite decide_False by lia. rewrite app_nil_r, drop_ge by lia.
    repeat split; [done..|]. by intros [] ? ?.
  - cbn [prepareBatches_loop]. destruct (decide (i * batchSize < length items)) as [Hlt|Hge].
    + replace (i * batchSize + batchSize) with ((i + 1) * batchSize) by lia.
      destruct (IH (i + 1) (batches ++ [take batchSize (drop (i * batchSize) items)]))
        as (tail & -> & Hcat & Hle & Hne & Hfull); [lia|].
      exists (take batchSize (drop (i * batchSize) items) :: tail).
      rewrite <-app_assoc. split; [done|]. split; [|split; [|split]].
      * cbn. rewrite Hcat. replace ((i + 1) * batchSize) with (i * batchSize + batchSize) by lia.
        by rewrite <-drop_drop, take_drop.
      * constructor; [|done]. rewrite length_take. lia.
      * done.
      * intros init final Heq. destruct init as [|b init]; [constructor|].
        injection Heq as <- Heq. constructor; [|by eapply Hfull].
        assert (tail ≠ []) as Hne' by (rewrite Heq; by destruct init).
        apply Hne in Hne'. rewrite length_take, length_drop. lia.
    + exists []. rewrite app_nil_r, drop_ge by lia.
      repeat split; [done..|]. by intros [] ? ?.
Qed.

(** C6.  With a positive batch size (the constructor sets 5)
    [prepareBatches] returns, for every list of items, batches whose
    concatenation is the list; no batch is longer than the batch size
    and every batch but the last has that size.  The count of batches
    is added to [batchCount]. *)
Theorem prepareBatches_partition {World A : Type} (env : Env World) (items : list A) :
  0 < batchSize (this env) →
  ∃ batches,
    prepareBatches items env
    = (upd_this (λ t, set_batchCount (batchCount t + length batches) t) env, Returned batches) ∧
    concat batches = items ∧
    Forall (λ b, length b ≤ batchSize (this env)) batches ∧
    (∀ init final, batches = init ++ [final] →
       Forall (λ b, length b = batchSize (this env)) init).
Proof.
  intros Hbs. unfold prepareBatches, prepareBatches_list.
  destruct (prepareBatches_loop_spec (batchSize (this env)) items (length items) 0 [] Hbs)
    as (tail & Hloop & Hcat & Hle & _ & Hfull); [lia|].
  cbn in Hloop. rewrite Hloop. exists tail. by rewrite Hcat.
Qed.

Lemma prepareBatches_partition_witness :
  let env := {| this := constructor true None "csv" {| getFullYear := 2024; getMonth := 0;
                   getDate := 1; getHours := 12; getMinutes := 30; getSeconds := 45 |};
                world := (); log := [] |} in
  0 < batchSize (this env) ∧
  ∃ batches,
    prepareBatches (seq 1 12) env
    = (upd_this (λ t, set_batchCount (batchCount t + length batches) t) env, Returned batches) ∧
    concat batches = seq 1 12 ∧
    Forall (λ b, length b ≤ batchSize (this env)) batches ∧
    (∀ init final, batches = init ++ [final] →
       Forall (λ b, length b = batchSize (this env)) init).
Proof.
  intros env. split; [cbn; lia|].
  apply (prepareBatches_partition env (seq 1 12)). cbn. lia.
Defined.

Example prepareBatches_12 :
  prepareBatches_list 5 (seq 1 12) = Some [[1; 2; 3; 4; 5]; [6; 7; 8; 9; 10]; [11; 12]].
Proof. reflexivity. Qed.

(** With a batch size of zero the loop never ends on a list with
    items. *)
Example prepareBatches_zero_size (fuel i j : nat) (batches : list (list nat)) :
  prepareBatches_loop fuel 0 [1; 2] i j batches = None.
Proof.
  revert i j batches.
  induction fuel as [|fuel IH]; intros i j batches; cbn [prepareBatches_loop];
    (rewrite decide_True by (cbn; lia)); [done|apply IH].
Qed.

(** ** Batch scheduler: accounting *)

Section Scheduler.
Context {World : Type} `{!Collaborators World} {I V : Type}.
Implicit Types (importFn : AsyncFn World I V) (env : Env World).
Implicit Types (ps : list (I * (Env World → Env World * Settled V))).
Implicit Types (res : ImportResults V I).

Lemma start_all_items importFn (batch : list I) env :
  (start_all importFn batch env).2.*1 = batch.
Proof.
  revert env. induction batch as [|item rest IH]; intros env; [done|].
  cbn [start_all]. destruct (importFn item env) as [env1 k].
  specialize (IH env1). destruct (start_all importFn rest env1) as [env2 ks].
  cbn in *. by rewrite IH.
Qed.

(** Settling a list of promises without a [TypeError] adds one entry
    per promise: to [created] or to [errors]. *)
Lemma settle_fold_accounting ps env res rej env' res' rej' :
  foldl settle_one (env, res, rej) ps = (env', res', rej') → rej' = None →
  rej = None ∧ ∃ cr_items cr_vals er,
    created res' = created res ++ cr_vals ∧
    errors res' = errors res ++ er ∧
    ps.*1 ≡ₚ cr_items ++ (resource <$> er) ∧
    length cr_items = length cr_vals.
Proof.
  revert env res rej. induction ps as [|p ps IH]; intros env res rej Hfold Hrej'.
  - injection Hfold as <- <- <-. split; [done|]. exists [], [], [].
    by rewrite !app_nil_r.
  - cbn [foldl] in Hfold. unfold settle_one at 2 in Hfold.
    destruct (p.2 env) as [env1 [v|[m|t]]].
    + destruct (IH _ _ _ Hfold Hrej') as (-> & cr_items & cr_vals & er & Hc & He & Hp & Hl).
      split; [done|]. exists (p.1 :: cr_items), (v :: cr_vals), er. cbn in *.
      rewrite Hc, He, <-app_assoc, Hp, Hl. done.
    + destruct (IH _ _ _ Hfold Hrej') as (-> & cr_items & cr_vals & er & Hc & He & Hp & Hl).
      split; [done|].
      exists cr_items, cr_vals, ({| error := m; resource := p.1 |} :: er). cbn in *.
      rewrite Hc, He, <-app_assoc, Hp. split; [done|]. split; [done|]. split; [|done].
      by rewrite <-Permutation_middle.
    + destruct (IH _ _ _ Hfold Hrej') as (Hrej & _). by destruct rej.
Qed.

Lemma importBatch_accounting importFn (batch : list I) env env' res :
  importBatch batch importFn env = (env', Returned res) →
  ∃ cr_items, batch ≡ₚ cr_items ++ (resource <$> errors res) ∧
    length cr_items = length (created res).
Proof.
  unfold importBatch. intros Hrun.
  pose proof (start_all_items importFn batch
                (upd_this (λ t, set_currentBatchNumber (currentBatchNumber t + 1) t) env)) as Hitems.
  destruct (start_all importFn batch _) as [env1 promises]. cbn in Hitems.
  destruct (foldl settle_one _ _) as [[env2 res2] [e|]] eqn:Hfold; [done|].
  injection Hrun as <- <-.
  destruct (settle_fold_accounting _ _ _ _ _ _ _ Hfold eq_refl)
    as (_ & cr_items & cr_vals & er & Hc & He & Hp & Hl).
  cbn in Hc, He. exists cr_items. rewrite Hc, He. split; [|done].
  rewrite <-Hp, <-Hitems. apply fmap_Permutation. symmetry. apply settle_order_perm.
Qed.

Lemma processBatches_from_accounting importFn (batches : list (list I)) res0 env env' res :
  processBatches_from res0 batches importFn env = (env', Returned res) →
  ∃ cr_items cr_vals er,
    created res = created res0 ++ cr_vals ∧
    errors res = errors res0 ++ er ∧
    concat batches ≡ₚ cr_items ++ (resource <$> er) ∧
    length cr_items = length cr_vals.
Proof.
  revert res0 env. induction batches as [|batch rest IH]; intros res0 env Hrun.
  - injection Hrun as <- <-. exists [], [], []. by rewrite !app_nil_r.
  - cbn [processBatches_from] in Hrun. unfold bind at 1 in Hrun.
    destruct (importBatch batch importFn env) as [env1 [r| |]] eqn:Hbatch; [|done..].
    destruct (importBatch_accounting _ _ _ _ _ Hbatch) as (ci1 & Hp1 & Hl1).
    destruct (IH _ _ Hrun) as (ci2 & cv2 & er2 & Hc & He & Hp2 & Hl2). cbn in Hc, He.
    exists (ci1 ++ ci2), (created r ++ cv2), (errors r ++ er2).
    rewrite Hc, He, <-!app_assoc. split; [done|]. split; [done|]. split.
    + cbn. rewrite Hp1, Hp2, fmap_app. rewrite <-!app_assoc.
      apply Permutation_app_head. rewrite !app_assoc. apply Permutation_app_tail.
      apply Permutation_app_comm.
    + rewrite !length_app. lia.
Qed.


(** *** Forward progress *)

Lemma start_all_from importFn (batch : list I) env :
  Forall (λ p, ∃ item env0, p.2 = (importFn item env0).2) (start_all importFn batch env).2.
Proof.
  revert env. induction batch as [|item rest IH]; intros env; [constructor|].
  cbn [start_all]. destruct (importFn item env) as [env1 k] eqn:Hk.
  specialize (IH env1). destruct (start_all importFn rest env1) as [env2 ks].
  constructor; [|done]. exists item, env. by rewrite Hk.
Qed.

Lemma settle_fold_returns importFn ps env res :
  rejects_with_header importFn →
  Forall (λ p, ∃ item env0, p.2 = (importFn item env0).2) ps →
  (foldl settle_one (env, res, None) ps).2 = None.
Proof.
  intros Hfn Hps. revert env res. induction Hps as [|p ps (item & env0 & Hp) _ IH]; intros env res.
  - done.
  - cbn [foldl]. unfold settle_one at 2.
    destruct (p.2 env) as [env1 [v|[m|t]]] eqn:Hsettled; [apply IH..|].
    rewrite Hp in Hsettled. destruct (Hfn item env0 env (PlainError t)) as [m Hm]; [|done].
    by rewrite Hsettled.
Qed.

(** A batch whose rejections all carry [header.message] is run to its
    end and returns its results. *)
Lemma importBatch_returns importFn (batch : list I) env :
  rejects_with_header importFn →
  ∃ env' res, importBatch batch importFn env = (env', Returned res).
Proof.
  intros Hfn. unfold importBatch.
  pose proof (start_all_from importFn batch
                (upd_this (λ t, set_currentBatchNumber (currentBatchNumber t + 1) t) env)) as Hfrom.
  destruct (start_all importFn batch _) as [env1 promises]. cbn in Hfrom.
  rewrite <-(settle_order_perm (world env1)) in Hfrom.
  pose proof (settle_fold_returns importFn _ env1 empty_results Hfn Hfrom) as Hnone.
  destruct (foldl settle_one _ _) as [[env2 res2] rej]. cbn in Hnone. subst rej. eauto.
Qed.

(** So are all the batches, one after the other. *)
Lemma processBatches_from_returns importFn (batches : list (list I)) res0 env :
  rejects_with_header importFn →
  ∃ env' res, processBatches_from res0 batches importFn env = (env', Returned res).
Proof.
  intros Hfn. revert res0 env. induction batches as [|batch rest IH]; intros res0 env.
  - by exists env, res0.
  - cbn [processBatches_from]. unfold bind at 1.
    destruct (importBatch_returns importFn batch env Hfn) as (env1 & r & ->). apply IH.
Qed.

Lemma processBatches_returns importFn (batches : list (list I)) env :
  rejects_with_header importFn →
  ∃ env' res, processBatches batches importFn env = (env', Returned res).
Proof. apply processBatches_from_returns. Qed.

(** A rejection without [header] makes the batch throw, wherever it is
    in the batch and whatever the other promises do. *)
Lemma settle_fold_rejection_kept ps env res e :
  ∃ e', (foldl settle_one (env, res, Some e) ps).2 = Some e'.
Proof.
  revert env res e. induction ps as [|p ps IH]; intros env res e; [by exists e|].
  cbn [foldl]. unfold settle_one at 2.
  destruct (p.2 env) as [env1 [v|[m|t]]]; apply IH.
Qed.

Lemma settle_fold_plain ps env res rej :
  Exists (λ p, ∀ env0, ∃ t, (p.2 env0).2 = Rejected (PlainError t)) ps →
  ∃ e, (foldl settle_one (env, res, rej) ps).2 = Some e.
Proof.
  intros Hex. revert env res rej. induction Hex as [p ps Hp|p ps _ IH]; intros env res rej.
  - cbn [foldl]. unfold settle_one at 2. destruct (Hp env) as [t Ht].
    destruct (p.2 env) as [env1 settled]. cbn in Ht. subst settled.
    destruct rej; apply settle_fold_rejection_kept.
  - cbn [foldl]. unfold settle_one at 2.
    destruct (p.2 env) as [env1 [v|[m|t]]]; apply IH.
Qed.

End Scheduler.


(** C4.  A worker promise that rejects with a value without
    [header] (here the plain [Error] of a resource that cannot be sent)
    makes the [catch] handler throw: [importBatch] and [processBatches]
    reject, and the worker is never called on the item of the second
    batch. *)
Theorem processBatches_plain_rejection_aborts :
  let first := example_resource "first" None in
  let offline := example_resource "offline" None in
  let last := example_resource "last" None in
  let run := processBatches [[first; offline]; [last]] saveResource
               (example_env (example_controller false "csv")) in
  run.2 = Thrown (PlainError "TypeError: e.header is undefined") ∧
  filter (λ ev, is_creation ev = true) (log run.1) = [EvResourceImport first; EvResourceImport offline] ∧
  currentBatchNumber (this run.1) = 1.
Proof. vm_compute. done. Qed.

(** The same holds of every worker and every batch: one such
    rejection, of any item, makes [importBatch] throw. *)
Lemma importBatch_plain_rejection {World : Type} `{!Collaborators World} {I V : Type}
    (importFn : AsyncFn World I V) (batch : list I) (env : Env World) (item : I) :
  item ∈ batch →
  (∀ env0 env1, ∃ t, ((importFn item env0).2 env1).2 = Rejected (PlainError t)) →
  ∃ env' e, importBatch batch importFn env = (env', Thrown e).
Proof.
  intros Hin Hrej. unfold importBatch.
  set (env0 := upd_this _ env).
  assert (Exists (λ p, ∀ env1, ∃ t, (p.2 env1).2 = Rejected (PlainError t))
            (start_all importFn batch env0).2) as Hex.
  { clearbody env0. revert env0. induction Hin as [item rest|item other rest _ IH]; intros env0.
    - cbn [start_all]. pose proof (Hrej env0) as Hk.
      destruct (importFn item env0) as [env1 k].
      destruct (start_all importFn rest env1) as [env2 ks]. by left.
    - cbn [start_all]. destruct (importFn other env0) as [env1 k].
      specialize (IH Hrej env1). destruct (start_all importFn rest env1) as [env2 ks]. by right. }
  destruct (start_all importFn batch env0) as [env1 promises]. cbn in Hex.
  rewrite <-(settle_order_perm (world env1)) in Hex.
  destruct (settle_fold_plain _ env1 empty_results None Hex) as [e He].
  destruct (foldl settle_one _ _) as [[env2 res2] rej]. cbn in He. subst rej. eauto.
Qed.

(** ** Folder materialiser *)

Section Folders.
Context {World : Type} `{!Collaborators World}.
Implicit Types (env : Env World) (registry : gmap string Folder).

Lemma skips_spec registry (folderPath : string) :
  skips registry folderPath = true ↔
  folderParent folderPath ≠ "" ∧ registry !! folderParent folderPath = None.
Proof. unfold skips. by rewrite bool_decide_eq_true. Qed.

(** A skipped creation makes no call and changes nothing; its promise
    resolves with [undefined]. *)
Lemma saveFolder_skip env (folderPath : string) :
  skips (folders (this env)) folderPath = true →
  saveFolder folderPath env = (env, λ env', (env', Resolved None)).
Proof.
  intros [Hparent Hlookup]%skips_spec. unfold saveFolder, getFolderFromPath.
  rewrite decide_True by done. by rewrite Hlookup.
Qed.

(** Any other path is sent to the creation call. *)
Lemma saveFolder_create env (folderPath : string) :
  skips (folders (this env)) folderPath = false →
  ∃ folderE, folder_name folderE = folderName folderPath ∧
    saveFolder folderPath env = create_folder folderPath folderE env.
Proof.
  intros Hskip. unfold saveFolder, getFolderFromPath.
  destruct (decide (folderParent folderPath ≠ "")) as [Hparent|_];
    [|eexists; split; [|reflexivity]; reflexivity].
  destruct (folders (this env) !! folderParent folderPath) as [parentFolder|] eqn:Hlookup.
  - eexists; split; [|reflexivity]; reflexivity.
  - assert (skips (folders (this env)) folderPath = true) by by apply skips_spec.
    congruence.
Qed.

Lemma create_folder_start env (folderPath : string) (folderE : FolderEntity) :
  this (create_folder folderPath folderE env).1 = this env ∧
  log (create_folder folderPath folderE env).1 = log env ++ [EvFolderCreate folderE] ∧
  ∀ env', ((create_folder folderPath folderE env).2 env').2 ≠ Resolved None.
Proof.
  unfold create_folder. destruct (folderModel_create folderE (world env)) as [w [f|e]]; done.
Qed.

(** The promises of a batch of folder paths: the registry is read for
    all of them before any creation has settled. *)
Lemma start_all_saveFolder (batch : list string) env :
  let started := start_all saveFolder batch env in
  this started.1 = this env ∧
  (∃ entities, log started.1 = log env ++ (EvFolderCreate <$> entities) ∧
     folder_name <$> entities
     = folderName <$> filter (λ p, skips (folders (this env)) p = false) batch) ∧
  Forall (λ p, if skips (folders (this env)) p.1
               then ∀ env', p.2 env' = (env', Resolved None)
               else ∀ env', (p.2 env').2 ≠ Resolved None) started.2.
Proof.
  revert env. induction batch as [|path rest IH]; intros env.
  - cbn. split; [done|]. split; [|done]. exists []. by rewrite app_nil_r.
  - cbn [start_all]. destruct (skips (folders (this env)) path) eqn:Hskip.
    + rewrite (saveFolder_skip _ _ Hskip).
      destruct (IH env) as (Hthis & (entities & Hlog & Hnames) & Hall).
      destruct (start_all saveFolder rest env) as [env2 ks]. cbn in *.
      split; [done|]. split.
      * exists entities. split; [done|]. rewrite decide_False by congruence. done.
      * constructor; [|done]. cbn. by rewrite Hskip.
    + destruct (saveFolder_create _ _ Hskip) as (folderE & Hname & ->).
      destruct (create_folder_start env path folderE) as (Hthis1 & Hlog1 & Hsettle).
      destruct (create_folder path folderE env) as [env1 k]. cbn in Hthis1, Hlog1, Hsettle.
      destruct (IH env1) as (Hthis & (entities & Hlog & Hnames) & Hall).
      destruct (start_all saveFolder rest env1) as [env2 ks]. cbn in *.
      rewrite Hthis1 in *. split; [done|]. split.
      * exists (folderE :: entities). rewrite Hlog, Hlog1, <-app_assoc. split; [done|].
        rewrite decide_True by done. cbn. by rewrite Hname, Hnames.
      * constructor; [|done]. cbn. by rewrite Hskip.
Qed.

(** Settling such promises: [created] receives one [undefined] per
    skipped path, and [errors] no entry for a skipped path. *)
Lemma settle_fold_skips registry
    (ps : list (string * (Env World → Env World * Settled (option Folder))))
    env res rej env' res' rej' :
  Forall (λ p, if skips registry p.1
               then ∀ env0, p.2 env0 = (env0, Resolved None)
               else ∀ env0, (p.2 env0).2 ≠ Resolved None) ps →
  foldl settle_one (env, res, rej) ps = (env', res', rej') →
  ∃ cr_vals er,
    created res' = created res ++ cr_vals ∧
    errors res' = errors res ++ er ∧
    length (filter (λ v, v = None) cr_vals) = length (filter (λ p, skips registry p = true) ps.*1) ∧
    Forall (λ entry, skips registry (resource entry) = false) er.
Proof.
  intros Hps. revert env res rej.
  induction Hps as [|p ps Hp _ IH]; intros env res rej Hfold.
  - injection Hfold as <- <- <-. exists [], []. by rewrite !app_nil_r.
  - cbn [foldl] in Hfold. unfold settle_one at 2 in Hfold.
    destruct (skips registry p.1) eqn:Hskip.
    + rewrite Hp in Hfold. cbn in Hfold.
      destruct (IH _ _ _ Hfold) as (cr_vals & er & Hc & He & Hn & Hne). cbn in Hc, He.
      exists (None :: cr_vals), er. rewrite Hc, He, <-app_assoc. repeat split; [|done].
      cbn [fmap list_fmap]. rewrite !filter_cons_True by done. cbn. by rewrite Hn.
    + specialize (Hp env). destruct (p.2 env) as [env1 [[f|]|[m|t]]]; [|done|..];
        destruct (IH _ _ _ Hfold) as (cr_vals & er & Hc & He & Hn & Hne); cbn in Hc, He.
      * exists (Some f :: cr_vals), er. rewrite Hc, He, <-app_assoc. repeat split; [|done].
        cbn [fmap list_fmap]. rewrite !filter_cons_False by congruence. done.
      * exists cr_vals, ({| error := m; resource := p.1 |} :: er).
        rewrite Hc, He, <-app_assoc. repeat split.
        -- cbn [fmap list_fmap]. rewrite filter_cons_False by congruence. done.
        -- by constructor.
      * exists cr_vals, er. rewrite Hc, He. repeat split; [|done].
        cbn [fmap list_fmap]. rewrite filter_cons_False by congruence. done.
Qed.

Lemma importBatch_saveFolder (batch : list string) env env' res :
  importBatch batch saveFolder env = (env', Returned res) →
  length (filter (λ v, v = None) (created res))
  = length (filter (λ p, skips (folders (this env)) p = true) batch) ∧
  Forall (λ entry, skips (folders (this env)) (resource entry) = false) (errors res).
Proof.
  unfold importBatch. intros Hrun.
  set (env0 := upd_this _ env) in Hrun.
  pose proof (start_all_saveFolder batch env0) as (_ & _ & Hall).
  pose proof (start_all_items saveFolder batch env0) as Hitems.
  destruct (start_all saveFolder batch env0) as [env1 promises]. cbn in Hall, Hitems.
  rewrite <-(settle_order_perm (world env1)) in Hall.
  destruct (foldl settle_one _ _) as [[env2 res2] [e|]] eqn:Hfold; [done|].
  injection Hrun as <- <-.
  destruct (settle_fold_skips _ _ _ _ _ _ _ _ Hall Hfold) as (cr_vals & er & Hc & He & Hn & Hne).
  cbn in Hc, He. rewrite Hc, He, Hn. split; [|done].
  rewrite <-Hitems. apply Permutation_length, filter_Permutation, fmap_Permutation,
    settle_order_perm.
Qed.

End Folders.

(** ** Runs of several batches *)

Section Runs.
Context {World : Type} `{!Collaborators World} {I V : Type}.
Implicit Types (importFn : AsyncFn World I V) (env : Env World).

(** The results so far only prefix the results of the batches. *)
Lemma processBatches_from_acc importFn (batches : list (list I)) (res0 : ImportResults V I) env :
  processBatches_from res0 batches importFn env =
  match processBatches batches importFn env with
  | (env', Returned r) =>
      (env', Returned {| created := created res0 ++ created r;
                         errors := errors res0 ++ errors r |})
  | (env', Thrown e) => (env', Thrown e)
  | (env', Hangs) => (env', Hangs)
  end.
Proof.
  unfold processBatches. revert res0 env.
  induction batches as [|batch rest IH]; intros res0 env.
  - cbn. destruct res0 as [c e]. cbn. by rewrite !app_nil_r.
  - cbn [processBatches_from]. unfold bind.
    destruct (importBatch batch importFn env) as [env1 [rb| |]]; [|done..].
    rewrite (IH {| created := created res0 ++ created rb; errors := errors res0 ++ errors rb |}).
    rewrite (IH {| created := created empty_results ++ created rb;
                   errors := errors empty_results ++ errors rb |}).
    destruct (processBatches_from empty_results rest importFn env1) as [env' [r| |]]; [|done..].
    cbn. by rewrite !app_assoc.
Qed.

Lemma processBatches_cons importFn (batch : list I) (rest : list (list I)) env env' res :
  processBatches (batch :: rest) importFn env = (env', Returned res) →
  ∃ env1 res1 res2,
    importBatch batch importFn env = (env1, Returned res1) ∧
    processBatches rest importFn env1 = (env', Returned res2) ∧
    created res = created res1 ++ created res2 ∧
    errors res = errors res1 ++ errors res2.
Proof.
  unfold processBatches at 1. cbn [processBatches_from]. unfold bind.
  destruct (importBatch batch importFn env) as [env1 [res1| |]]; [|done..].
  rewrite processBatches_from_acc.
  destruct (processBatches rest importFn env1) as [env2 [res2| |]] eqn:Hrest; [|done..].
  intros [= <- <-]. by exists env1, res1, res2.
Qed.

Lemma processBatches_app importFn (pre post : list (list I)) env env' res :
  processBatches (pre ++ post) importFn env = (env', Returned res) →
  ∃ env1 res1 res2,
    processBatches pre importFn env = (env1, Returned res1) ∧
    processBatches post importFn env1 = (env', Returned res2) ∧
    created res = created res1 ++ created res2 ∧
    errors res = errors res1 ++ errors res2.
Proof.
  revert env res. induction pre as [|batch pre IH]; intros env res Hrun.
  - exists env, empty_results, res. by cbn.
  - cbn [app] in Hrun. apply processBatches_cons in Hrun
      as (env1 & res1 & res2 & Hbatch & Hrest & Hc & He).
    apply IH in Hrest as (env2 & res3 & res4 & Hpre & Hpost & Hc' & He').
    exists env2, {| created := created res1 ++ created res3;
                    errors := errors res1 ++ errors res3 |}, res4.
    split; [|split; [done|]].
    + unfold processBatches at 1. cbn [processBatches_from]. unfold bind.
      rewrite Hbatch, processBatches_from_acc, Hpre. done.
    + cbn. by rewrite Hc, He, Hc', He', !app_assoc.
Qed.

End Runs.

(** C1 (amended).  A folder path whose parent path is not empty
    and is absent from the registry when [saveFolder] runs is skipped
    without raising: no call is made and nothing changes.  In the
    results of its batch, as [processBatches] returns them, no entry of
    [errors] is for such a path, and [created] has one [undefined] for
    each of them. *)
Theorem saveFolder_skip_recorded {World : Type} `{!Collaborators World} :
  (∀ (env : Env World) (folderPath : string),
     folderParent folderPath ≠ "" →
     folders (this env) !! folderParent folderPath = None →
     saveFolder folderPath env = (env, λ env', (env', Resolved None))) ∧
  (∀ (pre : list (list string)) (batch : list string) (post : list (list string))
     (env env' : Env World) res,
     processBatches (pre ++ batch :: post) saveFolder env = (env', Returned res) →
     ∃ env1 res1 env2 res2 res3,
       processBatches pre saveFolder env = (env1, Returned res1) ∧
       importBatch batch saveFolder env1 = (env2, Returned res2) ∧
       processBatches post saveFolder env2 = (env', Returned res3) ∧
       created res = created res1 ++ created res2 ++ created res3 ∧
       errors res = errors res1 ++ errors res2 ++ errors res3 ∧
       length (filter (λ v, v = None) (created res2))
       = length (filter (λ p, skips (folders (this env1)) p = true) batch) ∧
       Forall (λ entry, skips (folders (this env1)) (resource entry) = false) (errors res2)).
Proof.
  split.
  - intros env folderPath Hparent Hlookup. by apply saveFolder_skip, skips_spec.
  - intros pre batch post env env' res Hrun.
    apply processBatches_app in Hrun as (env1 & res1 & res23 & Hpre & Hrest & Hc & He).
    apply processBatches_cons in Hrest as (env2 & res2 & res3 & Hbatch & Hpost & Hc' & He').
    destruct (importBatch_saveFolder _ _ _ _ Hbatch) as [Hnone Herr].
    exists env1, res1, env2, res2, res3. by rewrite Hc, He, Hc', He'.
Qed.

Lemma saveFolder_skip_recorded_witness :
  let env := example_env (example_controller true "kdbx") in
  let batches := [["/t"]; ["/t/A"; "/t/X/Y"; "/t/denied"]; ["/t/A/B"]] in
  folderParent "/t/X/Y" = "/t/X" ∧
  saveFolder "/t/X/Y" env = (env, λ env', (env', Resolved None)) ∧
  ∃ env' res, processBatches batches saveFolder env = (env', Returned res) ∧
    created res = [Some {| id := "folder-0" |}; Some {| id := "folder-1" |}; None;
                   Some {| id := "folder-3" |}] ∧
    errors res = [ {| error := "denied"; resource := "/t/denied" |} ] ∧
    ∃ env1 res1 env2 res2 res3,
       processBatches [["/t"]] saveFolder env = (env1, Returned res1) ∧
       importBatch ["/t/A"; "/t/X/Y"; "/t/denied"] saveFolder env1 = (env2, Returned res2) ∧
       processBatches [["/t/A/B"]] saveFolder env2 = (env', Returned res3) ∧
       created res = created res1 ++ created res2 ++ created res3 ∧
       errors res = errors res1 ++ errors res2 ++ errors res3 ∧
       length (filter (λ v, v = None) (created res2))
       = length (filter (λ p, skips (folders (this env1)) p = true)
                   ["/t/A"; "/t/X/Y"; "/t/denied"]) ∧
       Forall (λ entry, skips (folders (this env1)) (resource entry) = false) (errors res2).
Proof.
  intros env batches. split; [reflexivity|]. split.
  - apply (proj1 saveFolder_skip_recorded env "/t/X/Y"); [discriminate|reflexivity].
  - eexists _, _. split; [vm_compute; reflexivity|]. split; [reflexivity|]. split; [reflexivity|].
    apply (proj2 saveFolder_skip_recorded [["/t"]] ["/t/A"; "/t/X/Y"; "/t/denied"] [["/t/A/B"]] env).
    vm_compute. reflexivity.
Defined.

(** C1, counterexample.  The path ["/tag/A/B"] is submitted while
    ["/tag/A"] is not in the registry.  Its creation is skipped, and the
    results hold an entry for it: the [undefined] in [created]. *)
Lemma saveFolder_skip_counterexample :
  let env := example_env (example_controller true "kdbx") in
  folderParent "/tag/A/B" = "/tag/A" ∧
  folders (this env) !! "/tag/A" = None ∧
  ∃ env' res, processBatches [["/tag/A/B"]] saveFolder env = (env', Returned res) ∧
    filter (λ ev, is_creation ev = true) (log env') = [] ∧
    created res = [None] ∧
    ¬ (created res = [] ∧ errors res = []).
Proof.
  cbn zeta. split; [reflexivity|]. split; [reflexivity|].
  eexists _, _. split; [vm_compute; reflexivity|]. cbn. split; [done|]. split; [done|].
  by intros [? _].
Qed.

(** A child in the batch of its parent reads the registry before the
    parent is stored: it is skipped, although the list is sorted. *)
Example same_batch_child_skipped :
  let run := processBatches [["/t"; "/t/A"]] saveFolder
               (example_env (example_controller true "kdbx")) in
  run.2 = Returned {| created := [Some {| id := "folder-0" |}; None]; errors := [] |} ∧
  folders (this run.1) = {[ "/t" := {| id := "folder-0" |} ]}.
Proof. vm_compute. done. Qed.

(** In a batch of its own, after the batch of its parent, it is
    created under it. *)
Example next_batch_child_created :
  let run := processBatches [["/t"]; ["/t/A"]] saveFolder
               (example_env (example_controller true "kdbx")) in
  run.2 = Returned {| created := [Some {| id := "folder-0" |}; Some {| id := "folder-1" |}];
                      errors := [] |} ∧
  filter (λ ev, is_creation ev = true) (log run.1)
  = [EvFolderCreate {| folder_name := "t"; folderParentId := None |};
     EvFolderCreate {| folder_name := "A"; folderParentId := Some "folder-0" |}].
Proof. vm_compute. done. Qed.

(** ** Orchestrator *)

Section Orchestrator.
Context {World : Type} `{!Collaborators World}.
Implicit Types (env : Env World).

(** The callbacks of the encryption only report progress. *)
Lemma encrypt_callbacks_effect (callbacks : list EncryptCallback) env :
  let env' := foldl (λ e cb, encrypt_callback cb e) env callbacks in
  world env' = world env ∧
  items_resources (this env') = items_resources (this env) ∧
  operationsCount (this env') = operationsCount (this env) ∧
  currentOperationNumber (this env) ≤ currentOperationNumber (this env') ∧
  currentItemNumber (this env') = currentItemNumber (this env) ∧
  ∃ new, log env' = log env ++ new ∧ Forall (λ ev, is_creation ev = false) new.
Proof.
  revert env. induction callbacks as [|cb callbacks IH]; intros env.
  - cbn. repeat split; [lia|]. exists []. by rewrite app_nil_r.
  - cbn [foldl]. destruct (IH (encrypt_callback cb env)) as (Hw & Hr & Ho & Hc & Hi & new & Hlog & Hnew).
    cbn zeta. rewrite Hw, Hr, Ho, Hi, Hlog.
    destruct cb as [position|]; cbn in *; (repeat split; [lia|]);
      eexists (_ :: new); rewrite <-app_assoc; (split; [reflexivity|]); by constructor.
Qed.

Lemma exec_prepare_log env env1 :
  exec_prepare env = (env1, Returned ()) →
  ∃ goals, log env1 = log env ++ [EvProgressOpen "Importing ..." goals "Preparing import"].
Proof.
  unfold exec_prepare, bind at 1. unfold bind at 1, gets at 1.
  assert (∀ (init : M World unit) e0 e1, (∀ e e', init e = (e', Returned ()) → log e' = log e) →
            (let (env', c) := init e0 in
             match c with
             | Returned a =>
                 (_prepareFolders;; prepareProgressCounter;;
                  (let* goals := gets operationsCount
                   in progress_open "Importing ..." goals "Preparing import")) env'
             | Thrown e => (env', Thrown e)
             | Hangs => (env', Hangs)
             end) = (e1, Returned ()) →
            ∃ goals, log e1 = log e0 ++ [EvProgressOpen "Importing ..." goals "Preparing import"])
    as Hgen.
  { intros init e0 e1 Hinit. destruct (init e0) as [e' [[]| |]] eqn:Hi; [|done..].
    apply Hinit in Hi. cbn. intros [= <-]. cbn. rewrite Hi. eauto. }
  destruct (decide (fileType (this env) = "kdbx")) as [_|_];
    [|destruct (decide (fileType (this env) = "csv")) as [_|_]]; apply Hgen.
  - intros ea eb. unfold initFromKdbx, bind, gets, await, modify.
    destruct (credentials_keyFile (this ea)); [done|]. cbn.
    destruct (kdbx_toItems (world ea)) as [w [items|err]]; [|done]. by intros [= <-].
  - intros ea eb. unfold initFromCsv, bind, await, modify.
    destruct (csv_toResources (world ea)) as [w [items|err]]; [|done]. by intros [= <-].
  - by intros ea eb [= <-].
Qed.

(** C5.  If the encryption returns a list of payloads whose length
    is not the count of resources, [exec] throws; the progress dialog,
    opened before, is closed last; and between the two no folder and no
    resource creation is called. *)
Theorem exec_encryption_mismatch env env1 (w2 w3 : World)
    (callbacks : list EncryptCallback) (armoredSecrets : list string) :
  exec_prepare env = (env1, Returned ()) →
  keyring_sync (world env1) = (w2, Resolved ()) →
  crypto_encryptAll (_prepareResources (items_resources (this env1)) (user_id (world env1))) w2
  = (w3, (callbacks, Resolved armoredSecrets)) →
  length armoredSecrets ≠ length (items_resources (this env1)) →
  ∃ env' goals new,
    exec env = (env', Thrown (PlainError
                  "Error: Error: There was a problem while encrypting the secrets")) ∧
    log env' = log env ++ [EvProgressOpen "Importing ..." goals "Preparing import"]
                 ++ new ++ [EvProgressClose] ∧
    Forall (λ ev, is_creation ev = false) new.
Proof.
  intros Hprep Hsync Henc Hlen.
  destruct (exec_prepare_log _ _ Hprep) as [goals Hlog1].
  unfold exec, bind at 1. rewrite Hprep.
  unfold try_catch, exec_import, bind at 1.
  unfold encryptSecretsAndAddToResources, bind, modify, await, _encryptSecretsForUser, gets.
  unfold _prepareResources in Henc. cbn. rewrite Hsync. cbn. rewrite Henc.
  set (env2 := emit _ _).
  destruct (encrypt_callbacks_effect callbacks env2) as (Hw & Hr & _ & _ & _ & new & Hlog & Hnew).
  cbn zeta in *. unfold _enrichResourcesWithArmoredSecret, bind, gets.
  rewrite Hr.
  change (items_resources (this env2))
    with (_prepareResources (items_resources (this env1)) (user_id (world env1))).
  match goal with |- context [decide ?P] => destruct (decide P) as [_|Hsame] end;
    [|exfalso; apply Hsame; unfold _prepareResources; by rewrite length_fmap].
  cbn.
  eexists _, goals, ([EvKeyringSync; EvEncryptAll _] ++ new). split; [reflexivity|]. split.
  - cbn. rewrite Hlog. cbn. rewrite Hlog1, <-!app_assoc. reflexivity.
  - repeat constructor. done.
Qed.

(** *** The operation count *)

Lemma prepareFoldersPaths_length (tag : string) (paths : list string) :
  0 < length (prepareFoldersPaths tag paths).
Proof.
  unfold prepareFoldersPaths. rewrite js_sort_perm.
  case_bool_decide as Hin; [|cbn; lia].
  destruct (fmap _ paths); [by apply elem_of_nil in Hin|cbn; lia].
Qed.

(** Whatever the outcome of the encryption stage, it leaves
    [operationsCount] at twice the count of resources. *)
Lemma encrypt_operationsCount env :
  operationsCount (this (encryptSecretsAndAddToResources env).1)
  = length (items_resources (this env)) * 2.
Proof.
  unfold encryptSecretsAndAddToResources, bind, modify, await, _encryptSecretsForUser, gets.
  cbn. destruct (keyring_sync (world env)) as [w [[]|e]]; [|done]. cbn.
  destruct (crypto_encryptAll _ w) as [w' [callbacks settled]].
  set (env2 := emit _ _).
  destruct (encrypt_callbacks_effect callbacks env2) as (_ & _ & Ho & _).
  cbn zeta in Ho.
  destruct settled as [armoredSecrets|e]; [|cbn; by rewrite Ho].
  unfold _enrichResourcesWithArmoredSecret, bind, gets. cbn.
  case_decide; cbn; by rewrite Ho.
Qed.

(** C2.  With folder import requested, the encryption stage sets
    [operationsCount] below the value that [prepareProgressCounter]
    gave it: the folders are no longer counted. *)
Theorem encryption_lowers_operationsCount env :
  importFolders (this env) = true →
  let env1 := (prepareProgressCounter (_prepareFolders env).1).1 in
  operationsCount (this (encryptSecretsAndAddToResources env1).1)
  < operationsCount (this env1).
Proof.
  intros Hfolders env1. rewrite encrypt_operationsCount.
  subst env1. cbn. rewrite Hfolders. cbn.
  pose proof (prepareFoldersPaths_length (uniqueImportTag (this env))
                (items_foldersPaths (this env))). lia.
Qed.

(** *** The running counters *)























End Orchestrator.

Lemma exec_encryption_mismatch_witness :
  let env := example_env (example_controller true "csv") in
  ∃ env' goals new,
    @exec nat truncating_collaborators env
    = (env', Thrown (PlainError
                "Error: Error: There was a problem while encrypting the secrets")) ∧
    log env' = log env ++ [EvProgressOpen "Importing ..." goals "Preparing import"]
                 ++ new ++ [EvProgressClose] ∧
    Forall (λ ev, is_creation ev = false) new.
Proof.
  intros env.
  eapply (@exec_encryption_mismatch nat truncating_collaborators env _ 2 3 [] ["armored:secret"]).
  - vm_compute. reflexivity.
  - reflexivity.
  - vm_compute. reflexivity.
  - vm_compute. discriminate.
Defined.

Lemma encryption_lowers_operationsCount_witness :
  let env := example_env (set_items_foldersPaths ["Work"; "Work/Sub"]
               (set_items_resources example_resources (example_controller true "kdbx"))) in
  let env1 := (prepareProgressCounter (_prepareFolders env).1).1 in
  operationsCount (this env1) = 27 ∧
  operationsCount (this (encryptSecretsAndAddToResources env1).1) = 24 ∧
  operationsCount (this (encryptSecretsAndAddToResources env1).1) < operationsCount (this env1).
Proof.
  intros env env1. split; [vm_compute; reflexivity|]. split; [vm_compute; reflexivity|].
  apply (encryption_lowers_operationsCount env). reflexivity.
Defined.

(** * Further properties *)

(** ** Folder paths: taking apart and putting together *)

Lemma split_nonempty (s : string) : Js.split "/" s ≠ [].
Proof. destruct (split_last s) as (init & name & -> & _). by destruct init. Qed.

Lemma split_no_slash (name : string) :
  Js.has_char "/" name = false → Js.split "/" name = [name].
Proof.
  induction name as [|c name IH]; [done|]. cbn [Js.has_char Js.split].
  destruct (decide (c = "/"%char)); [done|]. intros Hname. by rewrite IH.
Qed.

Lemma split_segments_no_slash (s : string) :
  Forall (λ seg, Js.has_char "/" seg = false) (Js.split "/" s).
Proof.
  induction s as [|c s IH]; [by repeat constructor|]. cbn [Js.split].
  destruct (decide (c = "/"%char)) as [->|Hc]; [by constructor|].
  destruct (Js.split "/" s) as [|h t]; [repeat constructor; cbn; by rewrite decide_False|].
  inversion_clear IH. constructor; [|done]. cbn. by rewrite decide_False.
Qed.

Lemma split_snoc (s name : string) :
  Js.has_char "/" name = false →
  Js.split "/" (s +:+ "/" +:+ name) = Js.split "/" s ++ [name].
Proof.
  intros Hname. induction s as [|c s IH].
  - rewrite str_app_nil_l. cbn [Js.split String.append]. change ("/" +:+ name) with (String "/" name).
    cbn [Js.split]. rewrite decide_True by done. by rewrite split_no_slash.
  - rewrite str_app_cons. cbn [Js.split]. destruct (decide (c = "/"%char)); [by rewrite IH|].
    rewrite IH. pose proof (split_nonempty s). by destruct (Js.split "/" s).
Qed.

Lemma join_snoc (sep x : string) (init : list string) :
  Js.join sep (init ++ [x])
  = match init with [] => x | _ => Js.join sep init +:+ sep +:+ x end.
Proof.
  induction init as [|h init IH]; [done|].
  destruct init as [|h' init]; [done|].
  change ((h :: h' :: init) ++ [x]) with (h :: h' :: (init ++ [x])).
  rewrite !join_cons. change (h' :: init ++ [x]) with ((h' :: init) ++ [x]).
  rewrite IH. by rewrite !str_app_assoc.
Qed.

Lemma join_split (s : string) : Js.join "/" (Js.split "/" s) = s.
Proof.
  destruct (split_last s) as (init & name & Hsplit & Hs).
  by rewrite Hsplit, join_snoc.
Qed.

(** [saveFolder] takes a path that starts with a slash apart into a
    parent path and a name without slash, of which it is made; and it
    finds the parent and the name of which a path is made. *)
Theorem folder_path_round_trip :
  (∀ rest, let P := String "/" rest in
     P = folderParent P +:+ "/" +:+ folderName P ∧
     Js.has_char "/" (folderName P) = false) ∧
  (∀ parent name, Js.has_char "/" name = false →
     folderParent (String "/" parent +:+ "/" +:+ name) = String "/" parent ∧
     folderName (String "/" parent +:+ "/" +:+ name) = name) ∧
  (∀ name, Js.has_char "/" name = false →
     folderParent (String "/" name) = "" ∧ folderName (String "/" name) = name).
Proof.
  split; [|split].
  - intros rest. split; [apply folderParent_name|].
    unfold folderName, folderSplit. cbn [Js.strip_leading_slash].
    pose proof (split_segments_no_slash rest) as Hall.
    destruct (split_last rest) as (init & name & Hsplit & _). rewrite Hsplit in Hall |- *.
    rewrite last_last. apply Forall_app in Hall as [_ Hname]. by inversion_clear Hname.
  - intros parent name Hname. unfold folderParent, folderName, folderSplit.
    rewrite str_app_cons. cbn [Js.strip_leading_slash].
    rewrite (split_snoc _ _ Hname), removelast_last, last_last. split; [|done].
    pose proof (split_nonempty parent). pose proof (join_split parent) as Hjoin.
    destruct (Js.split "/" parent); [done|]. by rewrite Hjoin.
  - intros name Hname. unfold folderParent, folderName, folderSplit.
    cbn [Js.strip_leading_slash]. by rewrite (split_no_slash _ Hname).
Qed.

Lemma folder_path_round_trip_witness :
  folderParent "/import-kdbx-20240101123045/Work/Sub" = "/import-kdbx-20240101123045/Work" ∧
  folderName "/import-kdbx-20240101123045/Work/Sub" = "Sub" ∧
  folderParent "/import-kdbx-20240101123045" = "" ∧
  folderName "/import-kdbx-20240101123045" = "import-kdbx-20240101123045".
Proof.
  pose proof (proj1 (proj2 folder_path_round_trip) "import-kdbx-20240101123045/Work" "Sub" eq_refl)
    as [Hparent Hname].
  pose proof (proj2 (proj2 folder_path_round_trip) "import-kdbx-20240101123045" eq_refl)
    as [Hroot Hrootname].
  exact (conj Hparent (conj Hname (conj Hroot Hrootname))).
Defined.

(** ** Consolidated paths: where they coincide *)



(** ** Encryption: what is left on a resource *)

Lemma enrich_all_length (rs : list Resource) (armoredSecrets : list string) :
  length (enrich_all rs armoredSecrets) = length rs.
Proof.
  revert armoredSecrets. induction rs as [|r rs IH]; intros [|a arm]; cbn; [done..|].
  by rewrite IH.
Qed.

Lemma enrich_all_lookup (rs : list Resource) (armoredSecrets : list string) (i : nat) r a :
  rs !! i = Some r → armoredSecrets !! i = Some a →
  enrich_all rs armoredSecrets !! i = Some (enrich_one r a).
Proof.
  revert armoredSecrets i. induction rs as [|r0 rs IH]; intros [|a0 arm] [|i]; cbn; try done.
  - by intros [= ->] [= ->].
  - apply IH.
Qed.

Lemma enrich_all_sealed (rs : list Resource) (armoredSecrets : list string) :
  length armoredSecrets = length rs → Forall (λ r, secretClear r = None) rs →
  Forall sealed (enrich_all rs armoredSecrets).
Proof.
  revert armoredSecrets. induction rs as [|r rs IH]; intros [|a arm] Hlen Hclear; cbn in *;
    [constructor|done..|].
  inversion_clear Hclear. constructor; [done|]. apply IH; [lia|done].
Qed.

Lemma prepare_then_enrich_sealed (rs : list Resource) (uid : string)
    (armoredSecrets : list string) :
  length armoredSecrets = length rs →
  Forall sealed (enrich_all (_prepareResources rs uid) armoredSecrets).
Proof.
  intros Hlen. apply enrich_all_sealed.
  - unfold _prepareResources. by rewrite length_fmap.
  - unfold _prepareResources. apply Forall_fmap, Forall_true. done.
Qed.

(** [_prepareResources] followed by [_enrichResourcesWithArmoredSecret]
    on as many payloads as resources: a resource keeps its name and
    its paths, receives its payload as its only secret unless its
    clear secret was the empty string, and is left without clear
    secret, message and user. *)
Theorem prepare_then_enrich (rs : list Resource) (uid : string) (armoredSecrets : list string) :
  length armoredSecrets = length rs →
  let sent := enrich_all (_prepareResources rs uid) armoredSecrets in
  length sent = length rs ∧
  Forall sealed sent ∧
  ∀ i r a, rs !! i = Some r → armoredSecrets !! i = Some a →
    ∃ r', sent !! i = Some r' ∧
      name r' = name r ∧ folderParentPath r' = folderParentPath r ∧
      folder_parent_id r' = folder_parent_id r ∧
      secrets r' = if decide (secretClear r = Some "") then secrets r
                   else Some [ {| data := a |} ].
Proof.
  intros Hlen sent. subst sent. split; [|split].
  - unfold _prepareResources. by rewrite enrich_all_length, length_fmap.
  - apply enrich_all_sealed.
    + unfold _prepareResources. by rewrite length_fmap.
    + unfold _prepareResources. apply Forall_fmap, Forall_true. done.
  - intros i r a Hr Ha. eexists. split.
    + apply enrich_all_lookup; [|exact Ha]. unfold _prepareResources.
      rewrite list_lookup_fmap, Hr. reflexivity.
    + done.
Qed.

Lemma prepare_then_enrich_witness :
  let rs := [example_resource "a" None;
             {| name := "empty"; secretClear := Some ""; folderParentPath := None;
                userId := None; message := None; secrets := None; folder_parent_id := None |}] in
  let sent := enrich_all (_prepareResources rs "user-1") ["payload-a"; "payload-empty"] in
  secrets <$> sent = [Some [ {| data := "payload-a" |} ]; None] ∧
  length sent = length rs ∧ Forall sealed sent.
Proof.
  intros rs sent. split; [reflexivity|].
  destruct (prepare_then_enrich rs "user-1" ["payload-a"; "payload-empty"] eq_refl)
    as (Hlen & Hsealed & _).
  exact (conj Hlen Hsealed).
Defined.

(** ** Batches: how many, and when none *)

Lemma prepareBatches_loop_count {A} (batchSize : nat) (items : list A) (fuel i : nat)
    (batches : list (list A)) :
  0 < batchSize → length items - i * batchSize ≤ fuel →
  ∃ tail, prepareBatches_loop fuel batchSize items i (i * batchSize) batches = Some (batches ++ tail) ∧
    Forall (λ b, b ≠ []) tail ∧
    length items - i * batchSize ≤ length tail * batchSize ∧
    length tail * batchSize < length items - i * batchSize + batchSize.
Proof.
  intros Hbs. revert i batches. induction fuel as [|fuel IH]; intros i batches Hfuel.
  - exists []. cbn. rewrite decide_False by lia. rewrite app_nil_r. repeat split; [done|lia..].
  - cbn [prepareBatches_loop]. destruct (decide (i * batchSize < length items)) as [Hlt|Hge].
    + replace (i * batchSize + batchSize) with ((i + 1) * batchSize) by lia.
      destruct (IH (i + 1) (batches ++ [take batchSize (drop (i * batchSize) items)]))
        as (tail & -> & Hne & Hlow & Hhigh); [lia|].
      exists (take batchSize (drop (i * batchSize) items) :: tail).
      rewrite <-app_assoc. split; [done|]. split; [|destruct tail; cbn [length] in *; lia].
      constructor; [|done]. intros Hempty. apply (f_equal length) in Hempty.
      rewrite length_take, length_drop in Hempty. cbn in Hempty. lia.
    + exists []. rewrite app_nil_r. repeat split; [done|cbn; lia..].
Qed.

(** With a positive batch size [prepareBatches] makes as many batches
    as the count of items divided by the batch size, rounded up, none
    of them empty, and adds that count to [batchCount]. *)
Theorem prepareBatches_count {World A : Type} (env : Env World) (items : list A) :
  0 < batchSize (this env) →
  ∃ batches,
    (prepareBatches items env).2 = Returned batches ∧
    Forall (λ b, b ≠ []) batches ∧
    length batches = (length items + batchSize (this env) - 1) / batchSize (this env) ∧
    batchCount (this (prepareBatches items env).1) = batchCount (this env) + length batches.
Proof.
  intros Hbs. unfold prepareBatches, prepareBatches_list.
  destruct (prepareBatches_loop_count (batchSize (this env)) items (length items) 0 [] Hbs)
    as (tail & Hloop & Hne & Hlow & Hhigh); [lia|].
  cbn in Hloop. rewrite Hloop. exists tail. cbn.
  split; [done|]. split; [done|]. split; [|done].
  apply Nat.div_unique with (length items + batchSize (this env) - 1 - length tail * batchSize (this env)); lia.
Qed.

Lemma prepareBatches_count_witness :
  let env := example_env (example_controller true "csv") in
  ∃ batches,
    (prepareBatches example_resources env).2 = Returned batches ∧
    Forall (λ b, b ≠ []) batches ∧
    length batches = (length example_resources + batchSize (this env) - 1) / batchSize (this env) ∧
    batchCount (this (prepareBatches example_resources env).1) = batchCount (this env) + length batches.
Proof. intros env. apply (prepareBatches_count env example_resources). cbn. lia. Defined.

Lemma prepareBatches_loop_zero {A} (items : list A) (fuel i j : nat) (batches : list (list A)) :
  items ≠ [] → prepareBatches_loop fuel 0 items i j batches = None.
Proof.
  intros Hitems. revert i j batches.
  induction fuel as [|fuel IH]; intros i j batches; cbn [prepareBatches_loop];
    (rewrite decide_True by (destruct items; [done|cbn; lia])); [done|apply IH].
Qed.

(** With a batch size of zero [prepareBatches] returns no batch for no
    item, and never returns for a list with items: its loop is still
    running after any number of iterations. *)
Theorem prepareBatches_without_size {World A : Type} (env : Env World) (items : list A) :
  batchSize (this env) = 0 →
  (items = [] → (prepareBatches items env).2 = Returned []) ∧
  (items ≠ [] → prepareBatches items env = (env, Hangs) ∧
                 ∀ fuel, prepareBatches_loop fuel 0 items 0 0 [] = None).
Proof.
  intros Hbs. unfold prepareBatches, prepareBatches_list. rewrite Hbs. split.
  - by intros ->.
  - intros Hitems. rewrite prepareBatches_loop_zero by done. split; [done|].
    intros fuel. by apply prepareBatches_loop_zero.
Qed.

Lemma prepareBatches_without_size_witness :
  let env := example_env (set_batchCount 0
               {| importFolders := true; credentials_keyFile := None; fileType := "csv";
                  uniqueImportTag := "import-csv-20240101123045"; batchSize := 0; batchCount := 0;
                  itemsCount := 0; operationsCount := 0; currentOperationNumber := 0;
                  currentBatchNumber := 0; currentItemNumber := 0; folders := ∅;
                  items_resources := []; items_foldersPaths := [] |}) in
  prepareBatches [1; 2; 3] env = (env, Hangs).
Proof.
  intros env.
  apply (proj2 (prepareBatches_without_size env [1; 2; 3] eq_refl)). discriminate.
Defined.

(** ** Batch scheduler: counters *)

Section Counting.
Context {World : Type} `{!Collaborators World}.
Implicit Types (env : Env World) (t : ImportController).

Lemma same_items_refl t : same_items t t.
Proof. by repeat split. Qed.

Lemma same_items_trans t1 t2 t3 : same_items t1 t2 → same_items t2 t3 → same_items t1 t3.
Proof. intros (?&?&?&?&?&?&?) (?&?&?&?&?&?&?). repeat split; congruence. Qed.

Lemma quiet_refl t : quiet t t.
Proof. split; [apply same_items_refl|done]. Qed.

Lemma quiet_trans t1 t2 t3 : quiet t1 t2 → quiet t2 t3 → quiet t1 t3.
Proof.
  intros (?&?&?&?) (?&?&?&?). split; [by eapply same_items_trans|]. repeat split; congruence.
Qed.

Lemma start_all_quiet {I V} (importFn : AsyncFn World I V) (batch : list I) env :
  quiet_worker importFn →
  quiet (this env) (this (start_all importFn batch env).1) ∧
  Forall (λ p, ∀ env', quiet (this env') (this (p.2 env').1)) (start_all importFn batch env).2.
Proof.
  intros Hfn. revert env. induction batch as [|item rest IH]; intros env.
  - split; [apply quiet_refl|constructor].
  - cbn [start_all]. destruct (Hfn item env) as [Hstart Hk].
    destruct (importFn item env) as [env1 k]. destruct (IH env1) as [Hrest Hks].
    destruct (start_all importFn rest env1) as [env2 ks]. cbn in *. split.
    + by eapply quiet_trans.
    + by constructor.
Qed.

Lemma settle_fold_counts {I V} (ps : list (I * (Env World → Env World * Settled V)))
    env (res : ImportResults V I) rej :
  Forall (λ p, ∀ env', quiet (this env') (this (p.2 env').1)) ps →
  same_items (this env) (this (foldl settle_one (env, res, rej) ps).1.1) ∧
  currentItemNumber (this (foldl settle_one (env, res, rej) ps).1.1)
  = currentItemNumber (this env) + length ps ∧
  currentOperationNumber (this (foldl settle_one (env, res, rej) ps).1.1)
  = currentOperationNumber (this env) + length ps ∧
  currentBatchNumber (this (foldl settle_one (env, res, rej) ps).1.1)
  = currentBatchNumber (this env).
Proof.
  intros Hps. revert env res rej. induction Hps as [|p ps Hp _ IH]; intros env res rej.
  - cbn. split; [apply same_items_refl|lia].
  - cbn [foldl]. unfold settle_one at 2 4 6 8. specialize (Hp env).
    destruct (p.2 env) as [env1 settled]. cbn in Hp. destruct Hp as (Hsame & Hi & Ho & Hb).
    assert (same_items (this env) (this (count_item env1)) ∧
            currentItemNumber (this (count_item env1)) = currentItemNumber (this env) + 1 ∧
            currentOperationNumber (this (count_item env1)) = currentOperationNumber (this env) + 1 ∧
            currentBatchNumber (this (count_item env1)) = currentBatchNumber (this env))
      as (Hsame' & Hi' & Ho' & Hb').
    { cbn. rewrite Hi, Ho, Hb. split; [|done]. destruct Hsame as (?&?&?&?&?&?&?). by repeat split. }
    assert (∀ res' rej',
      same_items (this env) (this (foldl settle_one (count_item env1, res', rej') ps).1.1) ∧
      currentItemNumber (this (foldl settle_one (count_item env1, res', rej') ps).1.1)
      = currentItemNumber (this env) + S (length ps) ∧
      currentOperationNumber (this (foldl settle_one (count_item env1, res', rej') ps).1.1)
      = currentOperationNumber (this env) + S (length ps) ∧
      currentBatchNumber (this (foldl settle_one (count_item env1, res', rej') ps).1.1)
      = currentBatchNumber (this env)) as Hnext.
    { intros res' rej'. destruct (IH (count_item env1) res' rej') as (Hs & Hi2 & Ho2 & Hb2).
      split; [by eapply same_items_trans|]. rewrite Hi2, Ho2, Hb2, Hi', Ho', Hb'. lia. }
    destruct settled as [v|[m|text]]; apply Hnext.
Qed.

(** Whatever becomes of it, a batch counts each of its items once. *)
Lemma importBatch_counts {I V} (importFn : AsyncFn World I V) (batch : list I) env :
  quiet_worker importFn →
  let env' := (importBatch batch importFn env).1 in
  same_items (this env) (this env') ∧
  currentItemNumber (this env') = currentItemNumber (this env) + length batch ∧
  currentOperationNumber (this env') = currentOperationNumber (this env) + length batch ∧
  currentBatchNumber (this env') = currentBatchNumber (this env) + 1.
Proof.
  intros Hfn. unfold importBatch.
  set (env0 := upd_this _ env).
  destruct (start_all_quiet importFn batch env0 Hfn) as [Hstart Hks].
  pose proof (start_all_items importFn batch env0) as Hitems.
  destruct (start_all importFn batch env0) as [env1 promises]. cbn in Hstart, Hks, Hitems.
  rewrite <-(settle_order_perm (world env1)) in Hks.
  pose proof (settle_fold_counts _ env1 empty_results None Hks) as (Hs & Hi & Ho & Hb).
  destruct (foldl settle_one _ _) as [[env2 res2] rej]. cbn [fst] in Hs, Hi, Ho, Hb.
  assert (length (settle_order (world env1) _ promises) = length batch) as Hlen.
  { rewrite settle_order_perm, <-Hitems. by rewrite length_fmap. }
  rewrite Hlen in Hi, Ho. destruct Hstart as (Hs0 & Hi0 & Ho0 & Hb0). cbn zeta.
  replace (this (match rej with Some e => (env2, Thrown e) | None => (env2, Returned res2) end).1)
    with (this env2) by by destruct rej.
  split; [|rewrite Hi, Ho, Hb, Hi0, Ho0, Hb0; done].
  eapply same_items_trans; [|exact Hs]. eapply same_items_trans; [|exact Hs0].
  by repeat split.
Qed.

Lemma processBatches_from_counts {I V} (importFn : AsyncFn World I V)
    (batches : list (list I)) (res0 : ImportResults V I) env env' res :
  quiet_worker importFn →
  processBatches_from res0 batches importFn env = (env', Returned res) →
  same_items (this env) (this env') ∧
  currentItemNumber (this env') = currentItemNumber (this env) + length (concat batches) ∧
  currentOperationNumber (this env') = currentOperationNumber (this env) + length (concat batches) ∧
  currentBatchNumber (this env') = currentBatchNumber (this env) + length batches.
Proof.
  intros Hfn. revert res0 env. induction batches as [|batch rest IH]; intros res0 env Hrun.
  - injection Hrun as <- <-. cbn. split; [apply same_items_refl|lia].
  - cbn [processBatches_from] in Hrun. unfold bind at 1 in Hrun.
    pose proof (importBatch_counts importFn batch env Hfn) as (Hs & Hi & Ho & Hb).
    destruct (importBatch batch importFn env) as [env1 [r| |]]; [|done..]. cbn in Hs, Hi, Ho, Hb.
    destruct (IH _ _ Hrun) as (Hs' & Hi' & Ho' & Hb').
    split; [by eapply same_items_trans|]. cbn [concat length]. rewrite length_app. lia.
Qed.

Lemma create_folder_quiet (folderPath : string) (folderE : FolderEntity) env :
  quiet (this env) (this (create_folder folderPath folderE env).1) ∧
  ∀ env', quiet (this env') (this ((create_folder folderPath folderE env).2 env').1).
Proof.
  unfold create_folder. destruct (folderModel_create folderE (world env)) as [w [f|e]];
    cbn; (split; [|intros env']); by repeat split.
Qed.

Lemma quiet_saveFolder : quiet_worker (World:=World) saveFolder.
Proof.
  intros path env. unfold saveFolder.
  destruct (decide _); [destruct (getFolderFromPath _ _)|];
    first [apply create_folder_quiet | split; [|intros env']; apply quiet_refl].
Qed.

Lemma quiet_saveResource : quiet_worker (World:=World) saveResource.
Proof.
  intros r env. unfold saveResource.
  destruct (Resource_import _ _) as [w settled]. cbn.
  split; [|intros env']; by repeat split.
Qed.


End Counting.


(** ** Batch scheduler: the calls made and the registry *)

Section Calls.
Context {World : Type} `{!Collaborators World}.
Implicit Types (env : Env World) (registry : gmap string Folder).

Lemma creations_app (l1 l2 : list Event) : creations (l1 ++ l2) = creations l1 ++ creations l2.
Proof. apply filter_app. Qed.

Lemma creations_all (l : list Event) :
  Forall (λ ev, is_creation ev = true) l → creations l = l.
Proof.
  unfold creations. induction 1 as [|ev l Hev _ IH]; [done|].
  by rewrite filter_cons_True, IH.
Qed.

Lemma creations_count_item env : creations (log (count_item env)) = creations (log env).
Proof. cbn. rewrite creations_app. cbn. by rewrite app_nil_r. Qed.

(** The handlers of the scheduler make no creation call. *)
Lemma settle_fold_creations {I V} (ps : list (I * (Env World → Env World * Settled V)))
    env (res : ImportResults V I) rej :
  Forall (λ p, ∀ env', log (p.2 env').1 = log env') ps →
  creations (log (foldl settle_one (env, res, rej) ps).1.1) = creations (log env).
Proof.
  intros Hps. revert env res rej. induction Hps as [|p ps Hp _ IH]; intros env res rej; [done|].
  cbn [foldl]. unfold settle_one at 2. specialize (Hp env).
  destruct (p.2 env) as [env1 settled]. cbn in Hp.
  assert (∀ res' rej', creations (log (foldl settle_one (count_item env1, res', rej') ps).1.1)
                       = creations (log env)) as Hnext.
  { intros res' rej'. by rewrite IH, creations_count_item, Hp. }
  destruct settled as [v|[m|text]]; apply Hnext.
Qed.

(** *** Resources *)

Lemma with_folder_ext (t t' : ImportController) (r : Resource) :
  folders t' = folders t → importFolders t' = importFolders t →
  uniqueImportTag t' = uniqueImportTag t → with_folder t' r = with_folder t r.
Proof. unfold with_folder, getFolderFromPath. by intros -> -> ->. Qed.

Lemma saveResource_call (r : Resource) env :
  saveResource r env
  = (emit (EvResourceImport (with_folder (this env) r))
       (set_world (Resource_import (with_folder (this env) r) (world env)).1 env),
     λ env', (env', (Resource_import (with_folder (this env) r) (world env)).2)).
Proof.
  unfold saveResource. fold (with_folder (this env) r).
  by destruct (Resource_import (with_folder (this env) r) (world env)).
Qed.

Lemma start_all_saveResource (batch : list Resource) env :
  this (start_all saveResource batch env).1 = this env ∧
  log (start_all saveResource batch env).1
  = log env ++ (EvResourceImport ∘ with_folder (this env) <$> batch) ∧
  Forall (λ p, ∀ env', (p.2 env').1 = env') (start_all saveResource batch env).2.
Proof.
  revert env. induction batch as [|r rest IH]; intros env.
  - cbn. by rewrite app_nil_r.
  - cbn [start_all]. rewrite saveResource_call.
    set (env1 := emit _ _). destruct (IH env1) as (Hthis & Hlog & Hks).
    destruct (start_all saveResource rest env1) as [env2 ks]. cbn in *.
    split; [done|]. split; [|by constructor].
    rewrite Hlog, <-app_assoc. done.
Qed.

Lemma settle_fold_this {I V} (ps : list (I * (Env World → Env World * Settled V)))
    env (res : ImportResults V I) rej :
  Forall (λ p, ∀ env', (p.2 env').1 = env') ps →
  folders (this (foldl settle_one (env, res, rej) ps).1.1) = folders (this env).
Proof.
  intros Hps. revert env res rej. induction Hps as [|p ps Hp _ IH]; intros env res rej; [done|].
  cbn [foldl]. unfold settle_one at 2. specialize (Hp env).
  destruct (p.2 env) as [env1 settled]. cbn in Hp. subst env1.
  destruct settled as [v|[m|text]]; by rewrite IH.
Qed.

Lemma importBatch_saveResource_calls (batch : list Resource) env :
  let env' := (importBatch batch saveResource env).1 in
  folders (this env') = folders (this env) ∧
  creations (log env')
  = creations (log env) ++ (EvResourceImport ∘ with_folder (this env) <$> batch).
Proof.
  unfold importBatch. set (env0 := upd_this _ env).
  destruct (start_all_saveResource batch env0) as (Hthis & Hlog & Hks).
  destruct (start_all saveResource batch env0) as [env1 promises]. cbn in Hthis, Hlog, Hks.
  rewrite <-(settle_order_perm (world env1)) in Hks.
  pose proof (settle_fold_this _ env1 empty_results None Hks) as Hfolders.
  assert (Forall (λ p : Resource * (Env World → Env World * Settled ResourceEntity),
                    ∀ env', log (p.2 env').1 = log env')
            (settle_order (world env1) _ promises)) as Hsilent
    by (eapply Forall_impl; [exact Hks|]; intros p Hp env'; by rewrite Hp).
  pose proof (settle_fold_creations _ env1 empty_results None Hsilent) as Hcalls.
  destruct (foldl settle_one _ _) as [[env2 res2] rej]. cbn [fst] in Hfolders, Hcalls. cbn zeta.
  replace (match rej with Some e => (env2, Thrown e) | None => (env2, Returned res2) end).1
    with env2 by by destruct rej.
  rewrite Hfolders, Hcalls, Hthis, Hlog, creations_app. split; [done|]. f_equal.
  rewrite creations_all by (apply Forall_fmap, Forall_true; done).
  apply list_fmap_ext. intros i r _. cbn. f_equal.
Qed.

Lemma processBatches_from_saveResource_calls (batches : list (list Resource))
    (res0 : ImportResults ResourceEntity Resource) env env' res :
  processBatches_from res0 batches saveResource env = (env', Returned res) →
  folders (this env') = folders (this env) ∧
  creations (log env')
  = creations (log env) ++ (EvResourceImport ∘ with_folder (this env) <$> concat batches).
Proof.
  revert env res0. induction batches as [|batch rest IH]; intros env res0 Hrun.
  - injection Hrun as <- <-. cbn. by rewrite app_nil_r.
  - cbn [processBatches_from] in Hrun. unfold bind at 1 in Hrun.
    pose proof (importBatch_saveResource_calls batch env) as [Hfolders Hcalls].
    pose proof (importBatch_counts saveResource batch env quiet_saveResource)
      as ((Himp & Htag & _) & _).
    destruct (importBatch batch saveResource env) as [env1 [r| |]]; [|done..].
    cbn in Hfolders, Hcalls, Himp, Htag.
    destruct (IH _ _ Hrun) as [Hfolders' Hcalls'].
    split; [congruence|]. rewrite Hcalls', Hcalls, <-app_assoc. f_equal.
    cbn [concat]. rewrite fmap_app. f_equal.
    apply list_fmap_ext. intros i x _. cbn. f_equal. by apply with_folder_ext.
Qed.

(** When [processBatches] returns with [saveResource], the calls to
    [Resource.import] made are one for each item, in the order of the
    items; each item is sent with the identifier of the folder that the
    registry holds for its consolidated path, when folders are imported
    and there is one, and as it is otherwise.  The registry is not
    changed. *)
Theorem processBatches_saveResource_calls (batches : list (list Resource)) env env' res :
  processBatches batches saveResource env = (env', Returned res) →
  folders (this env') = folders (this env) ∧
  creations (log env')
  = creations (log env) ++ (EvResourceImport ∘ with_folder (this env) <$> concat batches).
Proof. apply processBatches_from_saveResource_calls. Qed.

(** *** Folders *)

Lemma saveFolder_call env (folderPath : string) :
  skips (folders (this env)) folderPath = false →
  saveFolder folderPath env
  = create_folder folderPath (folder_entity (folders (this env)) folderPath) env.
Proof.
  intros Hskip. unfold saveFolder, folder_entity, getFolderFromPath.
  destruct (decide (folderParent folderPath ≠ "")) as [Hparent|_]; [|done].
  destruct (folders (this env) !! folderParent folderPath) as [parentFolder|] eqn:Hlookup; [done|].
  assert (skips (folders (this env)) folderPath = true) by by apply skips_spec.
  congruence.
Qed.

Lemma create_folder_effect (folderPath : string) (folderE : FolderEntity) env :
  this (create_folder folderPath folderE env).1 = this env ∧
  log (create_folder folderPath folderE env).1 = log env ++ [EvFolderCreate folderE] ∧
  ((∃ f, ∀ env', (create_folder folderPath folderE env).2 env'
                 = (upd_this (λ t, set_folders (<[folderPath := f]> (folders t)) t) env',
                    Resolved (Some f)))
   ∨ (∃ e, ∀ env', (create_folder folderPath folderE env).2 env' = (env', Rejected e))).
Proof.
  unfold create_folder. destruct (folderModel_create folderE (world env)) as [w [f|e]]; cbn;
    (split; [done|]); (split; [done|]); [left|right]; by eexists.
Qed.

Lemma start_all_saveFolder_calls (batch : list string) env :
  this (start_all saveFolder batch env).1 = this env ∧
  log (start_all saveFolder batch env).1
  = log env ++ (EvFolderCreate ∘ folder_entity (folders (this env))
                  <$> filter (λ p, skips (folders (this env)) p = false) batch) ∧
  Forall (folder_promise (folders (this env))) (start_all saveFolder batch env).2.
Proof.
  revert env. induction batch as [|path rest IH]; intros env.
  - cbn. by rewrite app_nil_r.
  - cbn [start_all]. destruct (skips (folders (this env)) path) eqn:Hskip.
    + rewrite (saveFolder_skip _ _ Hskip).
      destruct (IH env) as (Hthis & Hlog & Hall).
      destruct (start_all saveFolder rest env) as [env2 ks]. cbn [fst snd] in *.
      split; [done|]. split.
      * rewrite filter_cons_False by congruence. done.
      * constructor; [|done]. unfold folder_promise. cbn. by rewrite Hskip.
    + rewrite (saveFolder_call _ _ Hskip).
      destruct (create_folder_effect path (folder_entity (folders (this env)) path) env)
        as (Hthis1 & Hlog1 & Hk).
      destruct (create_folder path _ env) as [env1 k]. cbn [fst snd] in Hthis1, Hlog1, Hk.
      destruct (IH env1) as (Hthis & Hlog & Hall).
      destruct (start_all saveFolder rest env1) as [env2 ks]. cbn [fst snd] in *.
      rewrite Hthis1 in *. split; [done|]. split.
      * rewrite filter_cons_True by done. rewrite Hlog, Hlog1, <-app_assoc. done.
      * constructor; [|done]. unfold folder_promise. cbn. by rewrite Hskip.
Qed.

Lemma folder_promise_silent registry
    (p : string * (Env World → Env World * Settled (option Folder))) :
  folder_promise registry p → ∀ env', log (p.2 env').1 = log env'.
Proof.
  unfold folder_promise. intros Hp env'.
  destruct (skips registry p.1); [by rewrite Hp|].
  destruct Hp as [[f Hf]|[e He]]; [by rewrite Hf|by rewrite He].
Qed.

Lemma importBatch_saveFolder_events (batch : list string) env :
  creations (log (importBatch batch saveFolder env).1)
  = creations (log env)
    ++ (EvFolderCreate ∘ folder_entity (folders (this env))
          <$> filter (λ p, skips (folders (this env)) p = false) batch).
Proof.
  unfold importBatch. set (env0 := upd_this _ env).
  destruct (start_all_saveFolder_calls batch env0) as (Hthis & Hlog & Hks).
  destruct (start_all saveFolder batch env0) as [env1 promises]. cbn [fst snd] in Hthis, Hlog, Hks.
  rewrite <-(settle_order_perm (world env1)) in Hks.
  assert (Forall (λ p : string * (Env World → Env World * Settled (option Folder)),
                    ∀ env', log (p.2 env').1 = log env')
            (settle_order (world env1) _ promises)) as Hsilent
    by (eapply Forall_impl; [exact Hks|]; apply folder_promise_silent).
  pose proof (settle_fold_creations _ env1 empty_results None Hsilent) as Hcalls.
  destruct (foldl settle_one _ _) as [[env2 res2] rej]. cbn [fst] in Hcalls.
  replace (match rej with Some e => (env2, Thrown e) | None => (env2, Returned res2) end).1
    with env2 by by destruct rej.
  rewrite Hcalls, Hlog, creations_app. f_equal.
  by rewrite creations_all by (apply Forall_fmap, Forall_true; done).
Qed.

Lemma processBatches_from_saveFolder_calls (batches : list (list string))
    (res0 : ImportResults (option Folder) string) env env' res :
  processBatches_from res0 batches saveFolder env = (env', Returned res) →
  ∃ es, creations (log env') = creations (log env) ++ (EvFolderCreate <$> es) ∧
        length es ≤ length (concat batches).
Proof.
  revert env res0. induction batches as [|batch rest IH]; intros env res0 Hrun.
  - injection Hrun as <- <-. exists []. cbn. by rewrite app_nil_r.
  - cbn [processBatches_from] in Hrun. unfold bind at 1 in Hrun.
    pose proof (importBatch_saveFolder_events batch env) as Hcalls.
    destruct (importBatch batch saveFolder env) as [env1 [r| |]]; [|done..]. cbn [fst] in Hcalls.
    destruct (IH _ _ Hrun) as (es & Hes & Hlen).
    exists ((folder_entity (folders (this env))
               <$> filter (λ p, skips (folders (this env)) p = false) batch) ++ es).
    split.
    + by rewrite Hes, Hcalls, fmap_app, <-app_assoc, list_fmap_compose.
    + cbn [concat]. rewrite !length_app, length_fmap.
      pose proof (length_filter (λ p, skips (folders (this env)) p = false) batch). lia.
Qed.

(** The folder creation calls of a batch are those for the paths that
    are not skipped, in the order of the batch; each is named by the
    last segment of its path and carries the identifier that the
    registry held for the parent path when the batch began. *)
Theorem importBatch_saveFolder_calls (batch : list string) env :
  creations (log (importBatch batch saveFolder env).1)
  = creations (log env)
    ++ (EvFolderCreate ∘ folder_entity (folders (this env))
          <$> filter (λ p, skips (folders (this env)) p = false) batch).
Proof.
  apply importBatch_saveFolder_events.
Qed.

End Calls.

Lemma processBatches_saveResource_calls_witness :
  let env := example_env (set_folders {[ "/import-csv-20240101123045/Work" := {| id := "folder-7" |} ]}
                            (example_controller true "csv")) in
  let batches := [[example_resource "a" (Some "Work"); example_resource "refused" None];
                  [example_resource "b" (Some "Home")]] in
  ∃ env' res, processBatches batches saveResource env = (env', Returned res) ∧
    folder_parent_id ∘ with_folder (this env) <$> concat batches = [Some "folder-7"; None; None] ∧
    folders (this env') = folders (this env) ∧
    creations (log env')
    = creations (log env) ++ (EvResourceImport ∘ with_folder (this env) <$> concat batches).
Proof.
  intros env batches.
  match goal with |- ∃ env' res, ?run = _ ∧ _ =>
    let r := eval vm_compute in run in
    match r with (?e, Returned ?x) =>
      exists e, x; assert (run = (e, Returned x)) as Hrun by (vm_compute; reflexivity)
    end
  end.
  split; [exact Hrun|]. split; [reflexivity|].
  exact (processBatches_saveResource_calls batches env _ _ Hrun).
Defined.

(** ** The registry after a batch of folders *)

Section Registry.
Context {World : Type} `{!Collaborators World}.
Implicit Types (env : Env World) (registry : gmap string Folder).

Lemma folders_count_item env : folders (this (count_item env)) = folders (this env).
Proof. done. Qed.



End Registry.


(** ** What a run sends to the persistence calls *)

Section Sending.
Context {World : Type} `{!Collaborators World}.
Implicit Types (env : Env World).

Lemma sent_app (l1 l2 : list Event) : sent (l1 ++ l2) = sent l1 ++ sent l2.
Proof. apply omap_app. Qed.

Lemma sent_creations (l : list Event) : sent (creations l) = sent l.
Proof.
  unfold creations, sent. induction l as [|ev l IH]; [done|].
  destruct ev; rewrite ?filter_cons_True, ?filter_cons_False by done; cbn; by rewrite ?IH.
Qed.

Lemma sent_same (l l' : list Event) : creations l = creations l' → sent l = sent l'.
Proof. intros Hl. by rewrite <-(sent_creations l), Hl, sent_creations. Qed.

Lemma sent_imports (rs : list Resource) : sent (EvResourceImport <$> rs) = rs.
Proof. unfold sent. induction rs as [|r rs IH]; [done|]. cbn. by rewrite IH. Qed.

Lemma sent_folders (es : list FolderEntity) : sent (EvFolderCreate <$> es) = [].
Proof. by induction es. Qed.

Lemma sealed_with_folder (t : ImportController) (r : Resource) :
  sealed r → sealed (with_folder t r).
Proof.
  unfold with_folder. destruct (getFolderFromPath _ _); [|done].
  by destruct (importFolders t).
Qed.

(** *** Code without calls *)

Lemma callless_ret {A} (a : A) : callless (World:=World) (ret a).
Proof. done. Qed.

Lemma callless_throw {A} (e : JsError) : callless (World:=World) (A:=A) (throw e).
Proof. done. Qed.

Lemma callless_gets {A} (f : ImportController → A) : callless (World:=World) (gets f).
Proof. done. Qed.

Lemma callless_bind {A B} (c : M World A) (k : A → M World B) :
  callless c → (∀ a, callless (k a)) → callless (bind c k).
Proof.
  intros Hc Hk env. unfold bind. specialize (Hc env).
  destruct (c env) as [env1 [a| |]]; [|done..]. by rewrite Hk.
Qed.

Lemma callless_upd (f : ImportController → ImportController) :
  callless (World:=World) (modify (upd_this f)).
Proof. done. Qed.

Lemma callless_await {A} (call : World → World * Settled A) : callless (await call).
Proof. intros env. unfold await. by destruct (call (world env)) as [w [a|e]]. Qed.

Lemma callless_emit (ev : Event) :
  is_creation ev = false → callless (World:=World) (modify (emit ev)).
Proof.
  intros Hev env. cbn. rewrite creations_app. unfold creations at 2.
  rewrite filter_cons_False by congruence. cbn. by rewrite app_nil_r.
Qed.

Lemma callless_exec_prepare : callless (World:=World) exec_prepare.
Proof.
  unfold exec_prepare.
  repeat first
    [ apply callless_gets | apply callless_ret | apply callless_await | apply callless_throw
    | apply callless_upd | apply callless_emit; reflexivity
    | match goal with |- callless (if ?b then _ else _) => destruct b end
    | match goal with |- callless (match ?b with Some _ => _ | None => _ end) => destruct b end
    | apply callless_bind; [|intros ?] ].
Qed.

Lemma callless_encrypt : callless (World:=World) encryptSecretsAndAddToResources.
Proof.
  unfold encryptSecretsAndAddToResources, _encryptSecretsForUser, _enrichResourcesWithArmoredSecret.
  repeat first
    [ apply callless_gets | apply callless_ret | apply callless_await | apply callless_throw
    | apply callless_upd | apply callless_emit; reflexivity
    | match goal with |- callless (if ?b then _ else _) => destruct b end
    | apply callless_bind; [|intros ?] ].
  - done.
  - intros env. destruct (crypto_encryptAll _ _) as [w [callbacks settled]].
    set (env2 := emit _ _).
    destruct (encrypt_callbacks_effect callbacks env2) as (_ & _ & _ & _ & _ & new & Hlog & Hnew).
    cbn zeta in Hlog.
    assert (creations new = []) as Hnone.
    { clear Hlog. unfold creations. induction Hnew as [|ev new Hev _ IH]; [done|].
      rewrite filter_cons_False by congruence. done. }
    assert (creations (log (foldl (λ e cb, encrypt_callback cb e) env2 callbacks))
            = creations (log env)) as Hsame.
    { rewrite Hlog, creations_app, Hnone, app_nil_r. subst env2. cbn.
      rewrite creations_app. cbn. by rewrite app_nil_r. }
    by destruct settled.
Qed.

Lemma callless_prepareBatches {A} (items : list A) : callless (World:=World) (prepareBatches items).
Proof. intros env. unfold prepareBatches. by destruct (prepareBatches_list _ items). Qed.

(** *** The stages that make calls *)

Lemma processBatches_from_saveFolder_sent (batches : list (list string))
    (res0 : ImportResults (option Folder) string) env :
  sent (log (processBatches_from res0 batches saveFolder env).1) = sent (log env).
Proof.
  revert res0 env. induction batches as [|batch rest IH]; intros res0 env; [done|].
  cbn [processBatches_from]. unfold bind.
  pose proof (importBatch_saveFolder_events batch env) as Hcalls.
  apply (f_equal sent) in Hcalls. rewrite sent_creations, sent_app, sent_creations in Hcalls.
  rewrite list_fmap_compose, sent_folders, app_nil_r in Hcalls.
  destruct (importBatch batch saveFolder env) as [env1 [r| |]]; cbn in Hcalls; [|done..].
  by rewrite IH.
Qed.

Lemma processBatches_from_saveResource_sent (batches : list (list Resource))
    (res0 : ImportResults ResourceEntity Resource) env :
  Forall sealed (concat batches) → Forall sealed (sent (log env)) →
  Forall sealed (sent (log (processBatches_from res0 batches saveResource env).1)).
Proof.
  revert res0 env. induction batches as [|batch rest IH]; intros res0 env Hitems Hlog; [done|].
  cbn [concat] in Hitems. apply Forall_app in Hitems as [Hbatch Hrest].
  cbn [processBatches_from]. unfold bind.
  pose proof (importBatch_saveResource_calls batch env) as [_ Hcalls].
  apply (f_equal sent) in Hcalls. rewrite sent_creations, sent_app, sent_creations in Hcalls.
  rewrite list_fmap_compose, sent_imports in Hcalls.
  assert (Forall sealed (sent (log (importBatch batch saveResource env).1))) as Hnext.
  { rewrite Hcalls. apply Forall_app. split; [done|].
    apply Forall_fmap. eapply Forall_impl; [exact Hbatch|]. intros r. apply sealed_with_folder. }
  destruct (importBatch batch saveResource env) as [env1 [r| |]]; cbn in Hnext; [|done..].
  by apply IH.
Qed.

Lemma prepareBatches_returned {A} (items : list A) env env' (batches : list (list A)) :
  prepareBatches items env = (env', Returned batches) →
  concat batches = items ∧
  env' = upd_this (λ t, set_batchCount (batchCount t + length batches) t) env.
Proof.
  unfold prepareBatches, prepareBatches_list.
  destruct (prepareBatches_loop _ _ _ _ _ _) as [bs|] eqn:Hloop; [|done].
  intros [= <- <-]. split; [|done].
  destruct (decide (0 < batchSize (this env))) as [Hpos|Hzero].
  - destruct (prepareBatches_loop_spec (batchSize (this env)) items (length items) 0 [] Hpos)
      as (tail & Htail & Hcat & _); [lia|].
    cbn in Htail. rewrite Htail in Hloop. injection Hloop as <-. by rewrite Hcat.
  - assert (batchSize (this env) = 0) as Hbs by lia. rewrite Hbs in Hloop.
    destruct items as [|x items]; [by destruct (length []) in Hloop; injection Hloop as <-|].
    by rewrite prepareBatches_loop_zero in Hloop.
Qed.

(** The encryption stage, when it returns, leaves the resources
    enriched and alters nothing else of the items. *)
Lemma encrypt_returned env env2 :
  encryptSecretsAndAddToResources env = (env2, Returned ()) →
  (∃ armoredSecrets,
     length armoredSecrets = length (items_resources (this env)) ∧
     items_resources (this env2)
     = enrich_all (_prepareResources (items_resources (this env)) (user_id (world env)))
         armoredSecrets) ∧
  importFolders (this env2) = importFolders (this env) ∧
  uniqueImportTag (this env2) = uniqueImportTag (this env) ∧
  batchSize (this env2) = batchSize (this env) ∧
  itemsCount (this env2) = itemsCount (this env) ∧
  items_foldersPaths (this env2) = items_foldersPaths (this env) ∧
  folders (this env2) = folders (this env) ∧
  currentItemNumber (this env2) = currentItemNumber (this env).
Proof.
  unfold encryptSecretsAndAddToResources, bind, modify, await, _encryptSecretsForUser, gets.
  cbn. destruct (keyring_sync (world env)) as [w [[]|e]]; [|done]. cbn.
  destruct (crypto_encryptAll _ w) as [w' [callbacks settled]].
  set (env1 := emit _ _).
  assert (let env' := foldl (λ e cb, encrypt_callback cb e) env1 callbacks in
          items_resources (this env') = items_resources (this env1) ∧
          importFolders (this env') = importFolders (this env1) ∧
          uniqueImportTag (this env') = uniqueImportTag (this env1) ∧
          batchSize (this env') = batchSize (this env1) ∧
          itemsCount (this env') = itemsCount (this env1) ∧
          items_foldersPaths (this env') = items_foldersPaths (this env1) ∧
          folders (this env') = folders (this env1) ∧
          currentItemNumber (this env') = currentItemNumber (this env1)) as Hframe.
  { clearbody env1. revert env1. induction callbacks as [|cb callbacks IH]; intros env1; [done|].
    cbn [foldl]. cbn zeta. destruct (IH (encrypt_callback cb env1)) as (->&->&->&->&->&->&->&->).
    by destruct cb. }
  cbn zeta in Hframe. destruct Hframe as (Hr & Hf & Ht & Hb & Hi & Hp & Hd & Hn).
  destruct settled as [armoredSecrets|e]; [|done].
  unfold _enrichResourcesWithArmoredSecret, bind, gets. cbn. rewrite Hr.
  change (items_resources (this env1))
    with (_prepareResources (items_resources (this env)) (user_id (world env))).
  case_decide as Hlen; [done|]. cbn. intros [= <-]. cbn.
  rewrite Hf, Ht, Hb, Hi, Hp, Hd, Hn. split; [|done].
  exists armoredSecrets. split; [|done].
  rewrite Hlen. unfold _prepareResources. by rewrite length_fmap.
Qed.

Lemma exec_import_sent env :
  Forall sealed (sent (log env)) → Forall sealed (sent (log (exec_import env).1)).
Proof.
  intros Hlog. unfold exec_import. unfold bind at 1.
  pose proof (sent_same _ _ (callless_encrypt env)) as Hquiet.
  destruct (encryptSecretsAndAddToResources env) as [env2 [[]| |]] eqn:Hencrypt;
    cbn [fst snd] in Hquiet |- *; [|by rewrite Hquiet..].
  apply encrypt_returned in Hencrypt as ((armored & Hlen & Hitems) & Hframe).
  assert (Forall sealed (items_resources (this env2))) as Hsealed.
  { rewrite Hitems. by apply (prepare_then_enrich_sealed _ _ _ Hlen). }
  assert (Forall sealed (sent (log env2))) as Hlog2 by by rewrite Hquiet.
  clear Hlog Hquiet Hitems Hframe Hlen env armored.
  unfold bind at 1, gets at 1. cbn [fst snd].
  assert (∀ (stage : M World (option (ImportResults (option Folder) string))),
            (∀ env, sent (log (stage env).1) = sent (log env)) →
            (∀ env env' r, stage env = (env', Returned r) →
                           items_resources (this env') = items_resources (this env)) →
            Forall sealed (sent (log
              ((let* folders := stage in
                let* rs := gets items_resources in
                let* resourceBatches := prepareBatches rs in
                let* resources := processBatches resourceBatches saveResource in
                progress_close ;;
                let* tag := gets uniqueImportTag in
                ret {| result_resources := resources; result_folders := folders;
                       result_importTag := tag |}) env2).1))) as Hrest.
  { intros stage Hstage Hkeep. unfold bind at 1.
    specialize (Hstage env2). specialize (Hkeep env2).
    destruct (stage env2) as [env3 [fres| |]]; cbn [fst snd] in Hstage |- *; [|by rewrite Hstage..].
    specialize (Hkeep _ _ eq_refl).
    assert (Forall sealed (sent (log env3))) as Hlog3 by by rewrite Hstage.
    assert (Forall sealed (items_resources (this env3))) as Hsealed3 by by rewrite Hkeep.
    clear Hstage Hkeep Hlog2 Hsealed.
    unfold bind at 1, gets at 1. cbn [fst snd]. unfold bind at 1.
    pose proof (sent_same _ _ (callless_prepareBatches (items_resources (this env3)) env3))
      as Hquiet.
    destruct (prepareBatches (items_resources (this env3)) env3) as [env4 [batches| |]] eqn:Hprep;
      cbn [fst snd] in Hquiet |- *; [|by rewrite Hquiet..].
    apply prepareBatches_returned in Hprep as [Hcat _].
    unfold bind at 1.
    pose proof (processBatches_from_saveResource_sent batches empty_results env4) as Hsent.
    fold (processBatches batches saveResource env4) in Hsent.
    assert (Forall sealed (sent (log (processBatches batches saveResource env4).1))) as Hlog5.
    { apply Hsent; [by rewrite Hcat|]. by rewrite Hquiet. }
    destruct (processBatches batches saveResource env4) as [env5 [rres| |]];
      cbn [fst snd] in Hlog5 |- *; [|done..].
    cbn. by rewrite sent_app, app_nil_r. }
  destruct (importFolders (this env2)).
  - apply Hrest.
    + intros env. unfold bind at 1, gets at 1. cbn [fst snd]. unfold bind at 1.
      pose proof (sent_same _ _ (callless_prepareBatches (items_foldersPaths (this env)) env))
        as Hquiet.
      destruct (prepareBatches (items_foldersPaths (this env)) env) as [env3 [batches| |]];
        cbn [fst snd] in Hquiet |- *; [|by rewrite Hquiet..].
      unfold bind at 1.
      pose proof (processBatches_from_saveFolder_sent batches empty_results env3) as Hsent.
      fold (processBatches batches saveFolder env3) in Hsent.
      destruct (processBatches batches saveFolder env3) as [env4 [fres| |]];
        cbn [fst snd ret] in Hsent |- *; by rewrite Hsent, Hquiet.
    + intros env env' r. unfold bind at 1, gets at 1. cbn [fst snd]. unfold bind at 1.
      destruct (prepareBatches (items_foldersPaths (this env)) env) as [env3 [batches| |]] eqn:Hprep;
        [|done..].
      apply prepareBatches_returned in Hprep as [_ ->].
      unfold bind at 1.
      destruct (processBatches batches saveFolder _) as [env4 [fres| |]] eqn:Hrun; [|done..].
      intros [= <- <-].
      by destruct (processBatches_from_counts _ _ _ _ _ _ quiet_saveFolder Hrun)
        as ((_&_&_&_&_&->&_) & _).
  - apply Hrest; [done|]. by intros env env' r [= <- <-].
Qed.

(** No run hands a resource to [Resource.import] with its clear
    secret, its message or its user: however [exec] completes, every
    resource it has sent is without these three fields. *)
Theorem exec_sends_sealed env :
  Forall sealed (sent (log env)) → Forall sealed (sent (log (exec env).1)).
Proof.
  intros Hlog. unfold exec, bind.
  pose proof (sent_same _ _ (callless_exec_prepare env)) as Hquiet.
  destruct (exec_prepare env) as [env1 [[]| |]]; cbn [fst snd] in Hquiet |- *;
    [|by rewrite Hquiet..].
  rewrite <-Hquiet in Hlog.
  unfold try_catch. pose proof (exec_import_sent env1 Hlog) as Hlog2.
  destruct (exec_import env1) as [env2 [res|e|]]; cbn [fst snd] in Hlog2 |- *; [done| |done].
  cbn. by rewrite sent_app, app_nil_r.
Qed.

End Sending.

Lemma exec_sends_sealed_witness :
  let env := example_env (example_controller true "kdbx") in
  length (sent (log (@exec nat filled_collaborators env).1)) = 3 ∧
  Forall sealed (sent (log (@exec nat filled_collaborators env).1)).
Proof.
  intros env. split; [vm_compute; reflexivity|].
  apply (@exec_sends_sealed nat filled_collaborators env). constructor.
Defined.

(** ** The progress dialog over a run *)

Section Dialog.
Context {World : Type} `{!Collaborators World}.
Implicit Types (env : Env World) (P : Event → Prop).





















(** A rejection of the decoding is thrown by [exec] as it is, with no
    dialog opened and the controller as it was. *)
Theorem exec_decoding_rejected env (w : World) (e : JsError) :
  (fileType (this env) = "csv" ∧ csv_toResources (world env) = (w, Rejected e)) ∨
  (fileType (this env) = "kdbx" ∧ credentials_keyFile (this env) = None ∧
   kdbx_toItems (world env) = (w, Rejected e)) →
  exec env = (set_world w env, Thrown e).
Proof.
  unfold exec, exec_prepare, bind, gets. cbn [fst snd].
  intros [[Htype Hcsv]|(Htype & Hkey & Hkdbx)]; rewrite Htype.
  - rewrite decide_False, decide_True by done.
    unfold initFromCsv, bind, await. by rewrite Hcsv.
  - rewrite decide_True by done.
    unfold initFromKdbx, bind, gets, await. rewrite Hkey. cbn. by rewrite Hkdbx.
Qed.

(** With a key file in the options [exec] on a kdbx file throws the
    [ReferenceError] of [initFromKdbx] before anything is decoded: no
    call is made, no dialog is opened, the controller is as it was. *)
Theorem exec_kdbx_key_file env (keyFile : string) :
  fileType (this env) = "kdbx" → credentials_keyFile (this env) = Some keyFile →
  exec env = (env, Thrown (PlainError "ReferenceError: credentials is not defined")).
Proof.
  intros Htype Hkey. unfold exec, exec_prepare, bind, gets. cbn [fst snd].
  rewrite Htype, decide_True by done.
  unfold initFromKdbx, bind, gets. by rewrite Hkey.
Qed.

End Dialog.


Lemma exec_decoding_rejected_witness :
  let env := example_env (example_controller true "csv") in
  @exec nat undecodable_collaborators env
  = (set_world 1 env, Thrown (PlainError "Error: Invalid csv file")).
Proof.
  intros env. apply (@exec_decoding_rejected nat undecodable_collaborators env).
  left. split; reflexivity.
Defined.

Lemma exec_kdbx_key_file_witness :
  let env := example_env (constructor true (Some "a2V5") "kdbx"
               {| getFullYear := 2024; getMonth := 0; getDate := 1;
                  getHours := 12; getMinutes := 30; getSeconds := 45 |}) in
  @exec nat filled_collaborators env
  = (env, Thrown (PlainError "ReferenceError: credentials is not defined")).
Proof.
  intros env. apply (@exec_kdbx_key_file nat filled_collaborators env "a2V5"); reflexivity.
Defined.

(** ** The totals of a run that returns *)

Section Totals.
Context {World : Type} `{!Collaborators World}.
Implicit Types (env : Env World).

Lemma bind_returned {A B} (c : M World A) (k : A → M World B) env env' (b : B) :
  bind c k env = (env', Returned b) →
  ∃ env1 a, c env = (env1, Returned a) ∧ k a env1 = (env', Returned b).
Proof. unfold bind. destruct (c env) as [env1 [a| |]]; [|done..]. eauto. Qed.

(** What the stage before the dialog leaves of the options and the
    counters, and the count of items that it sets. *)
Lemma exec_prepare_returned env env1 :
  exec_prepare env = (env1, Returned ()) →
  uniqueImportTag (this env1) = uniqueImportTag (this env) ∧
  importFolders (this env1) = importFolders (this env) ∧
  currentItemNumber (this env1) = currentItemNumber (this env) ∧
  itemsCount (this env1)
  = length (items_resources (this env1))
    + (if importFolders (this env) then length (items_foldersPaths (this env1)) else 0).
Proof.
  unfold exec_prepare, bind at 1. unfold bind at 1, gets at 1.
  assert (∀ (init : M World unit),
            (∀ e e', init e = (e', Returned ()) →
                     uniqueImportTag (this e') = uniqueImportTag (this e) ∧
                     importFolders (this e') = importFolders (this e) ∧
                     currentItemNumber (this e') = currentItemNumber (this e)) →
            (let (env', c) := init env in
             match c with
             | Returned a =>
                 (_prepareFolders;; prepareProgressCounter;;
                  (let* goals := gets operationsCount
                   in progress_open "Importing ..." goals "Preparing import")) env'
             | Thrown e => (env', Thrown e)
             | Hangs => (env', Hangs)
             end) = (env1, Returned ()) →
            uniqueImportTag (this env1) = uniqueImportTag (this env) ∧
            importFolders (this env1) = importFolders (this env) ∧
            currentItemNumber (this env1) = currentItemNumber (this env) ∧
            itemsCount (this env1)
            = length (items_resources (this env1))
              + (if importFolders (this env) then length (items_foldersPaths (this env1)) else 0))
    as Hgen.
  { intros init Hinit. destruct (init env) as [e' [[]| |]] eqn:Hi; [|done..].
    apply Hinit in Hi as (Htag & Hfolders & Hnumber). cbn. intros [= <-]. cbn.
    rewrite <-Hfolders. destruct (importFolders (this e')) eqn:Hwith; cbn;
      rewrite ?Htag, ?Hnumber, ?Hwith; (split; [done|]); (split; [done|]); (split; [done|]); lia. }
  destruct (decide (fileType (this env) = "kdbx")) as [_|_];
    [|destruct (decide (fileType (this env) = "csv")) as [_|_]]; apply Hgen.
  - intros ea eb. unfold initFromKdbx, bind, gets, await, modify.
    destruct (credentials_keyFile (this ea)); [done|]. cbn.
    destruct (kdbx_toItems (world ea)) as [w [items|err]]; [|done]. by intros [= <-].
  - intros ea eb. unfold initFromCsv, bind, await, modify.
    destruct (csv_toResources (world ea)) as [w [items|err]]; [|done]. by intros [= <-].
  - by intros ea eb [= <-].
Qed.

(** One stage of batches that returns: the results account for the
    items, and the item counter has advanced by their count. *)
Lemma stage_returned {I V} (importFn : AsyncFn World I V) (items : list I) env env' res :
  quiet_worker importFn →
  (let* batches := prepareBatches items in processBatches batches importFn) env
  = (env', Returned res) →
  length (created res) + length (errors res) = length items ∧
  same_items (this env) (this env') ∧
  currentItemNumber (this env') = currentItemNumber (this env) + length items.
Proof.
  intros Hfn Hrun. apply bind_returned in Hrun as (env1 & batches & Hprep & Hrun).
  apply prepareBatches_returned in Hprep as [Hcat ->].
  pose proof (processBatches_from_counts _ _ _ _ _ _ Hfn Hrun) as (Hsame & Hnumber & _).
  apply processBatches_from_accounting in Hrun as (cr_items & cr_vals & er & Hc & He & Hp & Hl).
  cbn in Hc, He, Hsame, Hnumber. rewrite Hcat in Hp, Hnumber.
  split; [|done]. rewrite Hc, He, Hp, length_app, length_fmap. lia.
Qed.

(** The stages of a run that returns. *)
Lemma exec_returned env env' (res : ExecResult) :
  exec env = (env', Returned res) →
  ∃ env1 env2 env3 env4,
    exec_prepare env = (env1, Returned ()) ∧
    encryptSecretsAndAddToResources env1 = (env2, Returned ()) ∧
    (if importFolders (this env2)
     then ∃ fr, result_folders res = Some fr ∧
            (let* batches := prepareBatches (items_foldersPaths (this env2)) in
             processBatches batches saveFolder) env2 = (env3, Returned fr)
     else result_folders res = None ∧ env3 = env2) ∧
    (let* batches := prepareBatches (items_resources (this env3)) in
     processBatches batches saveResource) env3 = (env4, Returned (result_resources res)) ∧
    env' = emit EvProgressClose env4 ∧
    result_importTag res = uniqueImportTag (this env4).
Proof.
  intros Hrun. apply bind_returned in Hrun as (env1 & [] & Hprep & Hrun).
  assert (exec_import env1 = (env', Returned res)) as Himport.
  { revert Hrun. unfold try_catch. by destruct (exec_import env1) as [env2 [r|e|]]. }
  clear Hrun. unfold exec_import in Himport.
  apply bind_returned in Himport as (env2 & [] & Hencrypt & Hrun).
  apply bind_returned in Hrun as (? & withFolders & [= <- <-] & Hrun).
  apply bind_returned in Hrun as (env3 & fres & Hstage & Hrun).
  apply bind_returned in Hrun as (? & rs & [= <- <-] & Hrun).
  apply bind_returned in Hrun as (e4 & batches & Hbatches & Hrun).
  apply bind_returned in Hrun as (env4 & rres & Hproc & Hrun).
  cbn in Hrun. injection Hrun as <- <-.
  exists env1, env2, env3, env4. cbn [result_folders result_resources result_importTag].
  split; [done|]. split; [done|]. split; [|split; [|done]].
  - destruct (importFolders (this env2)); [|by injection Hstage as <- <-].
    apply bind_returned in Hstage as (? & paths & [= <- <-] & Hstage).
    apply bind_returned in Hstage as (e3 & fbatches & Hprep3 & Hstage).
    apply bind_returned in Hstage as (e4' & r & Hproc3 & Hstage).
    injection Hstage as <- <-. exists r. split; [done|]. unfold bind. by rewrite Hprep3.
  - unfold bind. by rewrite Hbatches.
Qed.

(** A run that returns.  Its tag is the tag of the controller; the
    resource results have one entry, created or in error, for each
    resource; the folder results are there exactly when folders are
    imported, with one entry for each folder path; and the item
    counter has advanced by [itemsCount], the count of the resources
    and of the folder paths handled. *)
Theorem exec_totals env env' (res : ExecResult) :
  exec env = (env', Returned res) →
  result_importTag res = uniqueImportTag (this env) ∧
  length (created (result_resources res)) + length (errors (result_resources res))
  = length (items_resources (this env')) ∧
  (if importFolders (this env)
   then ∃ fr, result_folders res = Some fr ∧
          length (created fr) + length (errors fr) = length (items_foldersPaths (this env'))
   else result_folders res = None) ∧
  itemsCount (this env')
  = length (items_resources (this env'))
    + (if importFolders (this env) then length (items_foldersPaths (this env')) else 0) ∧
  currentItemNumber (this env') = currentItemNumber (this env) + itemsCount (this env').
Proof.
  intros Hrun.
  apply exec_returned in Hrun
    as (env1 & env2 & env3 & env4 & Hprep & Hencrypt & Hstage & Hresources & -> & ->).
  apply exec_prepare_returned in Hprep as (Htag1 & Hfolders1 & Hnumber1 & Hcount1).
  apply encrypt_returned in Hencrypt
    as ((armored & Hlen & Hitems) & Hfolders2 & Htag2 & _ & Hcount2 & Hpaths2 & _ & Hnumber2).
  assert (length (items_resources (this env2)) = length (items_resources (this env1))) as Hlen2.
  { rewrite Hitems, enrich_all_length. unfold _prepareResources. by rewrite length_fmap. }
  apply (stage_returned _ _ _ _ _ quiet_saveResource) in Hresources
    as (Hacc4 & (_ & Htag4 & _ & Hcount4 & _ & Hitems4 & Hpaths4) & Hnumber4).
  cbn [this emit].
  rewrite Hitems4, Hpaths4, Hcount4, Hnumber4, Htag4. rewrite Hfolders2, Hfolders1 in Hstage.
  destruct (importFolders (this env)) eqn:Hwith.
  - destruct Hstage as (fr & Hfr & Hfolders).
    apply (stage_returned _ _ _ _ _ quiet_saveFolder) in Hfolders
      as (Hacc3 & (_ & Htag3 & _ & Hcount3 & _ & Hitems3 & Hpaths3) & Hnumber3).
    rewrite Hitems3, Hpaths3, Hcount3, Hnumber3, Htag3, Htag2, Hcount2, Hnumber2, Hpaths2, Hlen2,
      Hcount1, Hnumber1, Htag1.
    split; [done|]. split; [by rewrite Hacc4, Hitems3, Hlen2|].
    split; [exists fr; split; [done|]; by rewrite Hacc3, Hpaths2|]. split; lia.
  - destruct Hstage as [Hnone ->].
    rewrite Htag2, Hcount2, Hnumber2, Hlen2, Hcount1, Hnumber1, Htag1.
    split; [done|]. split; [by rewrite Hacc4, Hlen2|]. split; [done|]. split; lia.
Qed.

(** The calls of a run that returns: first the folder creations, at
    most one for each prepared folder path and none when folders are
    not imported; then one [Resource.import] for each resource, in the
    order of the resources, each sent with the identifier that the
    registry holds for its folder at the end, and just as it is when
    folders are not imported. *)
Theorem exec_calls env env' (res : ExecResult) :
  exec env = (env', Returned res) →
  ∃ es,
    creations (log env')
    = creations (log env) ++ (EvFolderCreate <$> es)
        ++ (EvResourceImport ∘ with_folder (this env') <$> items_resources (this env')) ∧
    length es ≤ (if importFolders (this env) then length (items_foldersPaths (this env')) else 0) ∧
    (importFolders (this env) = false →
     with_folder (this env') <$> items_resources (this env') = items_resources (this env')).
Proof.
  intros Hrun.
  apply exec_returned in Hrun
    as (env1 & env2 & env3 & env4 & Hprep & Hencrypt & Hstage & Hresources & -> & _).
  pose proof (callless_exec_prepare env) as Hlog1. rewrite Hprep in Hlog1. cbn [fst] in Hlog1.
  pose proof (callless_encrypt env1) as Hlog2. rewrite Hencrypt in Hlog2. cbn [fst] in Hlog2.
  apply exec_prepare_returned in Hprep as (_ & Hfolders1 & _).
  apply encrypt_returned in Hencrypt as (_ & Hfolders2 & _ & _ & _ & Hpaths2 & _).
  apply bind_returned in Hresources as (e3 & batches & Hbatches & Hresources).
  apply prepareBatches_returned in Hbatches as [Hcat ->].
  pose proof (processBatches_from_counts _ _ _ _ _ _ quiet_saveResource Hresources)
    as ((Hwith4 & Htag4 & _ & _ & _ & Hitems4 & Hpaths4) & _).
  apply processBatches_from_saveResource_calls in Hresources as [Hregistry4 Hlog4].
  cbn in Hwith4, Htag4, Hitems4, Hpaths4, Hregistry4.
  cbn [this upd_this log] in Hlog4. cbn [this log emit].
  assert (creations (log env4 ++ [EvProgressClose]) = creations (log env4)) as ->.
  { rewrite creations_app. cbn. by rewrite app_nil_r. }
  assert (EvResourceImport ∘ with_folder (this env4) <$> items_resources (this env4)
          = EvResourceImport ∘ with_folder (set_batchCount (batchCount (this env3) + length batches)
                                              (this env3)) <$> concat batches) as ->.
  { rewrite Hitems4, Hcat. apply list_fmap_ext. intros i r _. cbn. f_equal.
    by apply with_folder_ext. }
  rewrite Hlog4, Hpaths4. rewrite Hfolders2, Hfolders1 in Hstage.
  assert (importFolders (this env) = false →
          with_folder (this env4) <$> items_resources (this env4) = items_resources (this env4))
    as Hplain.
  { intros Hoff. rewrite Hoff in Hstage. destruct Hstage as [_ ->].
    rewrite <-(list_fmap_id (items_resources (this env4))) at 2.
    apply list_fmap_ext. intros i r _. unfold with_folder.
    destruct (getFolderFromPath _ _); [|done]. by rewrite Hwith4, Hfolders2, Hfolders1, Hoff. }
  destruct (importFolders (this env)) eqn:Hwith.
  - destruct Hstage as (fr & _ & Hfolders).
    apply bind_returned in Hfolders as (e2 & fbatches & Hfbatches & Hfolders).
    apply prepareBatches_returned in Hfbatches as [Hfcat ->].
    pose proof (processBatches_from_counts _ _ _ _ _ _ quiet_saveFolder Hfolders)
      as ((_ & _ & _ & _ & _ & _ & Hpaths3) & _).
    apply processBatches_from_saveFolder_calls in Hfolders as (es & Hlog3 & Hlen).
    cbn in Hpaths3. cbn [this upd_this log] in Hlog3.
    exists es. rewrite Hlog3, Hlog2, Hlog1, <-!app_assoc. split; [done|].
    split; [|done]. by rewrite Hpaths3, <-Hfcat.
  - destruct Hstage as [_ ->]. exists []. cbn [fmap list_fmap app length].
    rewrite Hlog2, Hlog1. by split.
Qed.

End Totals.

Lemma exec_calls_witness :
  let env := example_env (example_controller true "kdbx") in
  ∃ env' res, @exec nat filled_collaborators env = (env', Returned res) ∧
    length (creations (log env')) = 4 ∧
    ∃ es,
      creations (log env')
      = creations (log env) ++ (EvFolderCreate <$> es)
          ++ (EvResourceImport ∘ with_folder (this env') <$> items_resources (this env')) ∧
      length es ≤ (if importFolders (this env) then length (items_foldersPaths (this env')) else 0) ∧
      (importFolders (this env) = false →
       with_folder (this env') <$> items_resources (this env') = items_resources (this env')).
Proof.
  intros env.
  match goal with |- ∃ env' res, ?run = _ ∧ _ =>
    let r := eval vm_compute in run in
    match r with (?e, Returned ?x) =>
      exists e, x; assert (run = (e, Returned x)) as Hrun by (vm_compute; reflexivity)
    end
  end.
  split; [exact Hrun|]. split; [vm_compute; reflexivity|].
  exact (@exec_calls nat filled_collaborators env _ _ Hrun).
Defined.

Lemma exec_totals_witness :
  let env := example_env (example_controller true "kdbx") in
  ∃ env' res, @exec nat filled_collaborators env = (env', Returned res) ∧
    length (errors (result_resources res)) = 1 ∧
    itemsCount (this env') = 6 ∧
    result_importTag res = uniqueImportTag (this env) ∧
    length (created (result_resources res)) + length (errors (result_resources res))
    = length (items_resources (this env')) ∧
    (if importFolders (this env)
     then ∃ fr, result_folders res = Some fr ∧
            length (created fr) + length (errors fr) = length (items_foldersPaths (this env'))
     else result_folders res = None) ∧
    itemsCount (this env')
    = length (items_resources (this env'))
      + (if importFolders (this env) then length (items_foldersPaths (this env')) else 0) ∧
    currentItemNumber (this env') = currentItemNumber (this env) + itemsCount (this env').
Proof.
  intros env.
  match goal with |- ∃ env' res, ?run = _ ∧ _ =>
    let r := eval vm_compute in run in
    match r with (?e, Returned ?x) =>
      exists e, x; assert (run = (e, Returned x)) as Hrun by (vm_compute; reflexivity)
    end
  end.
  split; [exact Hrun|]. split; [reflexivity|]. split; [reflexivity|].
  exact (@exec_totals nat filled_collaborators env _ _ Hrun).
Defined.
